(** * SMA-crossover backtesting engine ([backtesting.py])

    A shallow embedding of [BacktestingEngine] and a verification of its
    simulation loop ([run_backtest], [buy], [sell]) and of its metrics
    ([calculate_performance]).

    Number model.  Python floats that the simulator handles ([cash], prices,
    portfolio values) are modelled by exact rationals [Q]: the rounding of
    sums, products and quotients and signed zeros are idealised away.  The
    one place where a float steers the run, the share count
    [int(cash // price)], is modelled only where the float quotient is the
    exact floor; from there up to the overflow of the float range the
    embedding gives the outcome [Unmodelled] and states nothing, and at the
    overflow it raises as [int] does.  Library code that rounds as it goes
    (the rolling mean, the power, the square root) is a parameter.  Python
    integers ([position], quantities, signals) are [Z].  The numpy scalars of
    [calculate_performance], for which a division by zero yields an infinity
    or a NaN instead of raising, are modelled by [np.float64]: a rational or one
    of the three IEEE special values. *)

From Stdlib Require Import List ZArith QArith Qround Qabs Lia Lqa Bool Sorted.
Import ListNotations.

Set Implicit Arguments.
Open Scope Q_scope.

(** ** Exceptions *)

Inductive exn : Type :=
| IndexError
| ZeroDivisionError
| ValueError
| OverflowError.

(** What a call comes to: a value, an exception, or [Unmodelled] where the
    program goes on with a float that the exact arithmetic of the embedding
    does not determine. *)
Inductive result (A : Type) : Type :=
| Ok (a : A)
| Raise (e : exn)
| Unmodelled.

Arguments Ok {A} a.
Arguments Raise {A} e.
Arguments Unmodelled {A}.

Definition bind {A B : Type} (m : result A) (k : A -> result B) : result B :=
  match m with
  | Ok a => k a
  | Raise e => Raise e
  | Unmodelled => Unmodelled
  end.

Notation "x <- m ;; k" := (bind m (fun x => k))
  (at level 61, m at next level, right associativity).

(** ** Sequences with Python indexing *)

(** [l[i]], [s.iloc[i]]: a negative index counts from the end; an index out
    of range raises [IndexError]. *)
Definition getitem {A : Type} (l : list A) (i : Z) : result A :=
  let n := Z.of_nat (length l) in
  let j := if (i <? 0)%Z then (n + i)%Z else i in
  if ((j <? 0) || (n <=? j))%Z then Raise IndexError
  else match nth_error l (Z.to_nat j) with
       | Some a => Ok a
       | None => Raise IndexError
       end.

(** [range(start, stop, step)] for [step > 0]. *)
Definition py_range (start stop step : nat) : list nat :=
  map (fun k => (start + k * step)%nat)
      (seq 0 ((stop - start + (step - 1)) / step)).

(** ** The data frame and the engine *)

(** One row of [self.data]: the columns the engine reads. *)
Record row : Type := Row {
  Close : Q;
  signal : Z
}.

Inductive side : Type := BUY | SELL.

(** A trade record [(side, price, quantity)]. *)
Definition trade : Type := (side * Q * Z)%type.

Definition trade_price (t : trade) : Q := snd (fst t).
Definition trade_qty (t : trade) : Z := snd t.

Record engine : Type := Engine {
  data : list row;
  initial_capital : Q;
  cash : Q;
  position : Z;
  commission : Q;
  trades : list trade;
  portfolio_values : list Q
}.

(** [BacktestingEngine.__init__] *)
Definition init (d : list row) (capital : Q) (comm : Q) : engine :=
  {| data := d;
     initial_capital := capital;
     cash := capital;
     position := 0;
     commission := comm;
     trades := [];
     portfolio_values := [] |}.

(** Below 2^51 in magnitude the float [a // b] is the exact floor of the
    quotient: its two roundings move the quotient by less than 1/4. *)
Definition exact_bound : Q := inject_Z (2 ^ 51).

(** A magnitude below which the sums of a window and the sums and products
    of a run stay inside the float range. *)
Definition float_safe : Q := inject_Z (2 ^ 1000).

(** From 2^1025 on the float quotient is an infinity. *)
Definition overflow_bound : Q := inject_Z (2 ^ 1025).

(** [int(a // b)] on floats: [//] raises on a zero divisor, [int] raises on
    an infinity, and in between the two bounds the quotient is a rounded
    float that the embedding does not determine. *)
Definition floordiv_int (a b : Q) : result Z :=
  if Qeq_bool b 0 then Raise ZeroDivisionError
  else if Qle_bool overflow_bound (Qabs (a / b)) then Raise OverflowError
  else if Qle_bool exact_bound (Qabs (a / b)) then Unmodelled
  else Ok (Qfloor (a / b)).

(** [BacktestingEngine.buy] *)
Definition buy (e : engine) (price : Q) : result engine :=
  if (position e =? 0)%Z then
    quantity <- floordiv_int (cash e) price ;;
    if (quantity <=? 0)%Z then Ok e
    else
      let cost := inject_Z quantity * price in
      let commission_cost := cost * commission e in
      Ok {| data := data e;
            initial_capital := initial_capital e;
            cash := cash e - (cost + commission_cost);
            position := quantity;
            commission := commission e;
            trades := trades e ++ [(BUY, price, quantity)];
            portfolio_values := portfolio_values e |}
  else Ok e.

(** [BacktestingEngine.sell] *)
Definition sell (e : engine) (price : Q) : engine :=
  if (0 <? position e)%Z then
    let quantity := position e in
    let revenue := inject_Z quantity * price in
    let commission_cost := revenue * commission e in
    {| data := data e;
       initial_capital := initial_capital e;
       cash := cash e + (revenue - commission_cost);
       position := 0;
       commission := commission e;
       trades := trades e ++ [(SELL, price, quantity)];
       portfolio_values := portfolio_values e |}
  else e.

(** The crossover test and the trade of one iteration of [run_backtest]. *)
Definition trade_rule (e : engine) (price : Q) (prev_signal current_signal : Z)
  : result engine :=
  if ((prev_signal =? -1) && (current_signal =? 1))%Z then buy e price
  else if ((prev_signal =? 1) && (current_signal =? -1))%Z then Ok (sell e price)
  else Ok e.

Definition append_value (e : engine) (v : Q) : engine :=
  {| data := data e;
     initial_capital := initial_capital e;
     cash := cash e;
     position := position e;
     commission := commission e;
     trades := trades e;
     portfolio_values := portfolio_values e ++ [v] |}.

(** The body of the [for] loop of [run_backtest] at index [i]. *)
Definition step (e : engine) (i : nat) : result engine :=
  r <- getitem (data e) (Z.of_nat i) ;;
  let price := Close r in
  p <- getitem (data e) (Z.of_nat i - 1) ;;
  let prev_signal := signal p in
  let current_signal := signal r in
  e1 <- trade_rule e price prev_signal current_signal ;;
  let portfolio_value := cash e1 + inject_Z (position e1) * price in
  Ok (append_value e1 portfolio_value).

Fixpoint loop (e : engine) (indices : list nat) : result engine :=
  match indices with
  | [] => Ok e
  | i :: rest => e1 <- step e i ;; loop e1 rest
  end.

(** [BacktestingEngine.run_backtest]: the final value and the engine as the
    call leaves it. *)
Definition run_backtest (e : engine) : result (Q * engine) :=
  e1 <- loop e (py_range 1 (length (data e)) 1) ;;
  r <- getitem (data e1) (-1) ;;
  let final_price := Close r in
  Ok (cash e1 + inject_Z (position e1) * final_price, e1).

(** ** numpy scalars and arrays *)

Module np.

(** A [float64] as numpy computes with it: division by zero and the like
    yield special values and never raise. *)
Inductive float64 : Type :=
| Fin (q : Q)
| PInf
| NInf
| NaN.

Definition inf (negative : bool) : float64 :=
  if negative then NInf else PInf.

Definition isnan (x : float64) : bool :=
  match x with NaN => true | _ => false end.


Definition negative (x : float64) : float64 :=
  match x with
  | Fin q => Fin (- q)
  | PInf => NInf
  | NInf => PInf
  | NaN => NaN
  end.

Definition add (x y : float64) : float64 :=
  match x, y with
  | NaN, _ | _, NaN => NaN
  | Fin a, Fin b => Fin (a + b)
  | PInf, NInf | NInf, PInf => NaN
  | PInf, _ | _, PInf => PInf
  | NInf, _ | _, NInf => NInf
  end.

Definition subtract (x y : float64) : float64 := add x (negative y).

Definition Qneg (q : Q) : bool :=
  match Qcompare q 0 with Lt => true | _ => false end.

Definition multiply (x y : float64) : float64 :=
  match x, y with
  | NaN, _ | _, NaN => NaN
  | Fin a, Fin b => Fin (a * b)
  | Fin a, PInf | PInf, Fin a => if Qeq_bool a 0 then NaN else inf (Qneg a)
  | Fin a, NInf | NInf, Fin a => if Qeq_bool a 0 then NaN else inf (negb (Qneg a))
  | PInf, PInf | NInf, NInf => PInf
  | PInf, NInf | NInf, PInf => NInf
  end.

Definition divide (x y : float64) : float64 :=
  match x, y with
  | NaN, _ | _, NaN => NaN
  | Fin a, Fin b =>
      if Qeq_bool b 0
      then (if Qeq_bool a 0 then NaN else inf (Qneg a))
      else Fin (a / b)
  | Fin _, _ => Fin 0
  | PInf, Fin b => inf (Qneg b)
  | NInf, Fin b => inf (negb (Qneg b))
  | _, _ => NaN
  end.

(** [x < y]: false as soon as one side is NaN. *)
Definition less (x y : float64) : bool :=
  match x, y with
  | NaN, _ | _, NaN => false
  | Fin a, Fin b => Qneg (a - b)
  | PInf, _ | _, NInf => false
  | _, _ => true
  end.

Definition not_equal (x y : float64) : bool :=
  match x, y with
  | Fin a, Fin b => negb (Qeq_bool a b)
  | PInf, PInf | NInf, NInf => false
  | _, _ => true
  end.

(** [np.maximum] and [np.minimum] propagate NaN. *)
Definition maximum (x y : float64) : float64 :=
  if isnan x then x else if isnan y then y
  else if less x y then y else x.

Definition minimum (x y : float64) : float64 :=
  if isnan x then x else if isnan y then y
  else if less y x then y else x.

(** [np.array] of a list of Python floats. *)
Definition array (l : list Q) : list float64 := map Fin l.

(** An operator applied to two arrays of the same shape. *)
Definition elementwise (f : float64 -> float64 -> float64)
           (a b : list float64) : list float64 :=
  map (fun p => f (fst p) (snd p)) (combine a b).

(** [np.diff(a)]: [a[1:] - a[:-1]]. *)
Definition diff (a : list float64) : list float64 :=
  elementwise subtract (tl a) (removelast a).

Fixpoint accumulate (f : float64 -> float64 -> float64) (acc : float64)
         (a : list float64) : list float64 :=
  match a with
  | [] => []
  | x :: rest => let acc' := f acc x in acc' :: accumulate f acc' rest
  end.

(** [np.maximum.accumulate(a)] *)
Definition maximum_accumulate (a : list float64) : list float64 :=
  match a with
  | [] => []
  | x :: rest => x :: accumulate maximum x rest
  end.

(** [np.min(a)]: raises on an empty array. *)
Definition min (a : list float64) : result float64 :=
  match a with
  | [] => Raise ValueError
  | x :: rest => Ok (fold_left minimum rest x)
  end.

Definition sum (a : list float64) : float64 := fold_left add a (Fin 0).

Definition size (a : list float64) : float64 :=
  Fin (inject_Z (Z.of_nat (length a))).

Definition mean (a : list float64) : float64 := divide (sum a) (size a).

Section Libm.
(** The square root is not a rational function: it is a parameter of
    the model. *)
Variable sqrt : float64 -> float64.

(** [np.std(a)]: the population standard deviation. *)
Definition std (a : list float64) : float64 :=
  let arrmean := mean a in
  let x := map (fun v => subtract v arrmean) a in
  let x := map (fun v => multiply v v) x in
  sqrt (divide (sum x) (size a)).
End Libm.

End np.

(** ** Performance metrics *)

Record metrics : Type := Metrics {
  Total_Return : np.float64;
  Annualized_Return : np.float64;
  Volatility : np.float64;
  Sharpe_Ratio : np.float64;
  Max_Drawdown : np.float64;
  Win_Ratio : Q
}.

(** Lines 95-96: the per-step returns, NaN entries dropped. *)
Definition raw_returns (portfolio_values : list np.float64) : list np.float64 :=
  np.elementwise np.divide (np.diff portfolio_values) (removelast portfolio_values).

Definition daily_returns (portfolio_values : list np.float64) : list np.float64 :=
  filter (fun r => negb (np.isnan r)) (raw_returns portfolio_values).

(** Lines 105-107. *)
Definition drawdown (portfolio_values : list np.float64) : list np.float64 :=
  let cumulative_max := np.maximum_accumulate portfolio_values in
  np.elementwise np.divide
    (np.elementwise np.subtract portfolio_values cumulative_max)
    cumulative_max.

Definition max_drawdown (portfolio_values : list np.float64) : result np.float64 :=
  np.min (drawdown portfolio_values).

(** Lines 110-117: the loop that pairs the trades. *)
Fixpoint profits_loop (trades : list trade) (indices : list nat)
         (profits : list Q) : result (list Q) :=
  match indices with
  | [] => Ok profits
  | i :: rest =>
      b <- getitem trades (Z.of_nat i - 1) ;;
      let buy_price := trade_price b in
      s <- getitem trades (Z.of_nat i) ;;
      let sell_price := trade_price s in
      let qty := trade_qty b in
      let profit := (sell_price - buy_price) * inject_Z qty in
      profits_loop trades rest (profits ++ [profit])
  end.

Definition Qpositive (p : Q) : bool :=
  match Qcompare 0 p with Lt => true | _ => false end.

Definition len_Q {A : Type} (l : list A) : Q := inject_Z (Z.of_nat (length l)).

(** Lines 110-122. *)
Definition win_ratio (trades : list trade) : result Q :=
  profits <- profits_loop trades (py_range 1 (length trades) 2) [] ;;
  Ok (match profits with
      | [] => 0
      | _ => len_Q (filter Qpositive profits) / len_Q profits
      end).

(** [a / b] on Python integers. *)
Definition truediv (a : Z) (b : nat) : result Q :=
  match b with
  | O => Raise ZeroDivisionError
  | _ => Ok (inject_Z a / inject_Z (Z.of_nat b))
  end.

Section Performance.
(** [**] and [np.sqrt] are parameters of the model. *)
Variable power : np.float64 -> np.float64 -> np.float64.
Variable sqrt : np.float64 -> np.float64.

(** [BacktestingEngine.calculate_performance] *)
Definition calculate_performance (e : engine) : result (option metrics) :=
  if (length (portfolio_values e) <? 2)%nat then Ok None
  else
    let portfolio_values := np.array (portfolio_values e) in
    let returns := daily_returns portfolio_values in
    last_value <- getitem portfolio_values (-1) ;;
    let total_return :=
      np.divide (np.subtract last_value (np.Fin (initial_capital e)))
                (np.Fin (initial_capital e)) in
    exponent <- truediv 252 (length (data e)) ;;
    let annualized_return :=
      np.subtract (power (np.add (np.Fin 1) total_return) (np.Fin exponent))
                  (np.Fin 1) in
    let volatility := np.multiply (np.std sqrt returns) (sqrt (np.Fin 252)) in
    let sharpe_ratio :=
      if np.not_equal volatility (np.Fin 0)
      then np.divide (np.subtract annualized_return (np.Fin (2 # 100))) volatility
      else np.Fin 0 in
    max_drawdown <- max_drawdown portfolio_values ;;
    win_ratio <- win_ratio (trades e) ;;
    Ok (Some {| Total_Return := total_return;
                Annualized_Return := annualized_return;
                Volatility := volatility;
                Sharpe_Ratio := sharpe_ratio;
                Max_Drawdown := max_drawdown;
                Win_Ratio := win_ratio |}).
End Performance.

(** ** The pipeline of [main] *)

(** One row of the frame that the download returns: the [Close] cell and
    the cells of the other columns, [None] for NaN. *)
Record raw_row : Type := RawRow {
  raw_close : option Q;
  raw_others : list (option Q)
}.

Definition notna (cell : option Q) : bool :=
  match cell with Some _ => true | None => false end.

(** [data.dropna()] on the downloaded frame: a row with a NaN in any column
    goes; of a row that stays the model keeps the [Close] cell, the only one
    read afterwards. *)
Definition dropna (rows : list raw_row) : list Q :=
  flat_map (fun r => match raw_close r with
                     | Some c => if forallb notna (raw_others r) then [c] else []
                     | None => []
                     end) rows.

(** [load_market_data], the download being a parameter. *)
Definition load_market_data (downloaded : list raw_row) : result (list Q) :=
  match downloaded with
  | [] => Raise ValueError
  | _ => Ok (dropna downloaded)
  end.

Definition sum_Q (l : list Q) : Q := fold_right Qplus 0 l.

Definition Qgt_bool (a b : Q) : bool :=
  match a ?= b with Gt => true | _ => false end.

(** [data.dropna()] on the frame with the two averages. *)
Definition dropna_sma (frame : list (Q * (option Q * option Q)))
  : list (Q * (Q * Q)) :=
  flat_map (fun r => match r with
                     | (c, (Some a, Some b)) => [(c, (a, b))]
                     | _ => []
                     end) frame.

Section Rolling.
(** The value of [s.rolling(window).mean()] at a position where the window
    is full.  The library keeps a running float sum, so the value is the
    mean of the window up to rounding only: it is a parameter of the
    model. *)
Variable mean : nat -> list Q -> nat -> Q.

(** [s.rolling(window).mean()] at position [i]: NaN until the window is
    full. *)
Definition window_mean (window : nat) (values : list Q) (i : nat) : option Q :=
  if (S i <? window)%nat then None else Some (mean window values i).

Definition rolling_mean (window : nat) (values : list Q) : list (option Q) :=
  map (window_mean window values) (seq 0 (length values)).

(** Lines 163-169 of [main]: the two moving averages, [dropna], and the
    signal [np.where(SMA_50 > SMA_200, 1, -1)]. *)
Definition sma_frame (closes : list Q) : list (Q * (option Q * option Q)) :=
  let sma_50 := rolling_mean 50 closes in
  let sma_200 := rolling_mean 200 closes in
  combine closes (combine sma_50 sma_200).

Definition sma_signals (closes : list Q) : list row :=
  map (fun r => Row (fst r) (if Qgt_bool (fst (snd r)) (snd (snd r))
                             then 1%Z else (-1)%Z))
      (dropna_sma (sma_frame closes)).

Variable power : np.float64 -> np.float64 -> np.float64.
Variable sqrt : np.float64 -> np.float64.

(** [main] from the downloaded frame to the final value and the metrics
    that it prints; the prompts, the printing and the plot are left out. *)
Definition main (downloaded : list raw_row) : result (Q * option metrics) :=
  data <- load_market_data downloaded ;;
  let data := sma_signals data in
  let engine := init data 1000000 (1 # 1000) in
  run <- run_backtest engine ;;
  let final_value := fst run in
  performance <- calculate_performance power sqrt (snd run) ;;
  Ok (final_value, performance).
End Rolling.

(** ** Notions the properties are stated with *)

(** The trade log read as consecutive pairs [(t0, t1), (t2, t3), ...]; a
    trailing unmatched trade is left out. *)
Fixpoint closed_pairs (ts : list trade) : list (trade * trade) :=
  match ts with
  | b :: s :: rest => (b, s) :: closed_pairs rest
  | _ => []
  end.

(** (sell price - buy price) * buy quantity *)
Definition pair_profit (p : trade * trade) : Q :=
  (trade_price (snd p) - trade_price (fst p)) * inject_Z (trade_qty (fst p)).

Definition winning (p : trade * trade) : bool := Qpositive (pair_profit p).



Definition nondecreasing (values : list Q) : Prop := Sorted Qle values.

(** The running maximum that [np.maximum.accumulate] keeps on finite
    values. *)
Definition running_max (m x : Q) : Q := if np.Qneg (m - x) then x else m.

(** The tail of [drawdown] once the running maximum [m] is known. *)
Definition drawdown_from (m : np.float64) (a : list np.float64) : list np.float64 :=
  let cumulative_max := np.accumulate np.maximum m a in
  np.elementwise np.divide (np.elementwise np.subtract a cumulative_max)
                 cumulative_max.

(** A trade log of matched trades only: BUY then SELL of the same quantity,
    repeated. *)
Inductive flat_log : list trade -> Prop :=
| flat_log_nil : flat_log []
| flat_log_snoc ts p q p' :
    flat_log ts -> flat_log (ts ++ [(BUY, p, q); (SELL, p', q)]).

(** The trade log and the position agree: either every BUY is matched and
    nothing is held, or the last trade is the BUY of the shares held. *)
Definition log_agrees (e : engine) : Prop :=
  (position e = 0%Z /\ flat_log (trades e)) \/
  ((0 < position e)%Z /\
   exists ts p, flat_log ts /\ trades e = ts ++ [(BUY, p, position e)]).

Definition buy_sell_pair (p : trade * trade) : Prop :=
  fst (fst (fst p)) = BUY /\ fst (fst (snd p)) = SELL /\
  trade_qty (snd p) = trade_qty (fst p).

(** Price times quantity of a trade, and the cash it moves at commission
    rate [c]: a BUY takes the notional and the commission, a SELL brings the
    notional less the commission. *)
Definition notional (t : trade) : Q := inject_Z (trade_qty t) * trade_price t.


(** cash + shares held * price *)
Definition value_at (e : engine) (price : Q) : Q :=
  cash e + inject_Z (position e) * price.



(** The exact mean of the [window] values that end at position [i]: the
    instance of the rolling mean used in the closed examples. *)
Definition sma (window : nat) (values : list Q) (i : nat) : Q :=
  sum_Q (firstn window (skipn (S i - window) values))
  / inject_Z (Z.of_nat window).

(** The signal of the row at position [i] of the downloaded closes. *)
Definition crossover_signal (mean : nat -> list Q -> nat -> Q)
           (closes : list Q) (i : nat) : Z :=
  if Qgt_bool (mean 50%nat closes i) (mean 200%nat closes i)
  then 1%Z else (-1)%Z.

(** ** Closed examples *)

(** Prices [10, 12, 9, 15] with signals [-1, 1, 1, -1]. *)
Definition example_data : list row :=
  [Row 10 (-1); Row 12 1; Row 9 1; Row 15 (-1)].

(** The engine that [run_backtest] leaves on [example_data] with capital
    1000 and no commission. *)
Definition example_engine : engine :=
  {| data := example_data;
     initial_capital := 1000;
     cash := 1249;
     position := 0;
     commission := 0;
     trades := [(BUY, 12, 83%Z); (SELL, 15, 83%Z)];
     portfolio_values := [1000; 751; 1249] |}.



(** An instance of the two parameters of [calculate_performance] for the
    closed examples: exact where the result is rational (a whole exponent
    that is not negative, the square of a rational), NaN elsewhere.  The
    theorems hold for every instance. *)
Definition power_on_integers (x y : np.float64) : np.float64 :=
  match x, y with
  | np.Fin a, np.Fin b =>
      if Qeq_bool (inject_Z (Qfloor b)) b && (0 <=? Qfloor b)%Z
      then np.Fin (Qpower a (Qfloor b))
      else np.NaN
  | _, _ => np.NaN
  end.

Definition sqrt_on_squares (x : np.float64) : np.float64 :=
  match x with
  | np.Fin a =>
      let r := Qred a in
      let n := Z.sqrt (Qnum r) in
      let d := Z.sqrt (Z.pos (Qden r)) in
      if ((n * n =? Qnum r) && (d * d =? Z.pos (Qden r)))%Z
      then np.Fin (n # Z.to_pos d)
      else np.NaN
  | _ => np.NaN
  end.


(** A frame whose signal only ever falls. *)
Definition falling_data : list row :=
  [Row 10 1; Row 12 1; Row 9 (-1)].

(** A frame with a buy crossover at the price 0. *)
Definition zero_price_data : list row :=
  [Row 10 (-1); Row 0 1].


(** Downloads of one row and of 202 rows, every close 10. *)
Definition short_download : list raw_row := [RawRow (Some 10) [Some 11]].

Definition flat_download : list raw_row :=
  repeat (RawRow (Some 10) [Some 11]) 202.

(** What [main] returns on [flat_download] with the exact means. *)
Definition flat_result : Q * option metrics :=
  Eval vm_compute in
    match main sma power_on_integers sqrt_on_squares flat_download with
    | Ok r => r
    | _ => (0, None)
    end.

(** * Verification *)

(** ** Indexing and ranges *)

Lemma bind_Ok {A B : Type} (m : result A) (k : A -> result B) (b : B) :
  bind m k = Ok b -> exists a, m = Ok a /\ k a = Ok b.
Proof.
  destruct m as [a|err|]; simpl; intros H;
    [exists a; auto | discriminate | discriminate].
Qed.

Lemma getitem_nat {A : Type} (l : list A) (i : nat) (a : A) :
  nth_error l i = Some a -> getitem l (Z.of_nat i) = Ok a.
Proof.
  intros H. unfold getitem.
  assert (Hlt : (i < length l)%nat) by (apply nth_error_Some; congruence).
  destruct (Z.ltb_spec (Z.of_nat i) 0) as [Hn|_]; [lia|].
  destruct (Z.ltb_spec (Z.of_nat i) 0) as [Hn|_]; [lia|].
  destruct (Z.leb_spec (Z.of_nat (length l)) (Z.of_nat i)) as [Hn|_]; [lia|].
  simpl. now rewrite Nat2Z.id, H.
Qed.

Lemma getitem_pred {A : Type} (l : list A) (i : nat) (a : A) :
  nth_error l i = Some a -> getitem l (Z.of_nat (S i) - 1) = Ok a.
Proof.
  intros H. replace (Z.of_nat (S i) - 1)%Z with (Z.of_nat i) by lia.
  now apply getitem_nat.
Qed.

Lemma getitem_nat_inv {A : Type} (l : list A) (i : nat) (a : A) :
  getitem l (Z.of_nat i) = Ok a -> nth_error l i = Some a.
Proof.
  unfold getitem.
  destruct (Z.ltb_spec (Z.of_nat i) 0) as [Hn|_]; [lia|].
  destruct (_ || _)%bool; [discriminate|].
  rewrite Nat2Z.id. destruct (nth_error l i); congruence.
Qed.

Lemma getitem_last {A : Type} (l : list A) (a : A) :
  getitem (l ++ [a]) (-1) = Ok a.
Proof.
  unfold getitem. rewrite length_app. simpl length.
  change (-1 <? 0)%Z with true. cbv iota.
  replace (Z.of_nat (length l + 1) + -1)%Z with (Z.of_nat (length l)) by lia.
  destruct (Z.ltb_spec (Z.of_nat (length l)) 0) as [Hn|_]; [lia|].
  destruct (Z.leb_spec (Z.of_nat (length l + 1)) (Z.of_nat (length l))) as [Hn|_];
    [lia|].
  simpl. rewrite Nat2Z.id, nth_error_app2, Nat.sub_diag by lia. reflexivity.
Qed.

Lemma getitem_nil {A : Type} (i : Z) : getitem (@nil A) i = Raise IndexError.
Proof.
  unfold getitem. destruct (_ || _)%bool; [reflexivity|].
  now destruct (Z.to_nat _).
Qed.

Lemma py_range_step1 (n : nat) : py_range 1 n 1 = seq 1 (n - 1).
Proof.
  unfold py_range. rewrite Nat.sub_diag, Nat.add_0_r, Nat.div_1_r.
  rewrite <- seq_shift. apply map_ext. intros k. lia.
Qed.

(** ** The simulation loop *)

Lemma Qeq_bool_false (a b : Q) : ~ a == b -> Qeq_bool a b = false.
Proof.
  intros H. destruct (Qeq_bool a b) eqn:E; [|reflexivity].
  now apply Qeq_bool_eq in E.
Qed.



(** The share count is returned exactly where the quotient lies strictly
    inside the exact range. *)
Lemma floordiv_int_Ok (a b : Q) (q : Z) :
  floordiv_int a b = Ok q ->
  ~ b == 0 /\ Qabs (a / b) < exact_bound /\ q = Qfloor (a / b).
Proof.
  unfold floordiv_int.
  destruct (Qeq_bool b 0) eqn:Hz; [discriminate|].
  apply Qeq_bool_neq in Hz.
  destruct (Qle_bool overflow_bound _); [discriminate|].
  destruct (Qle_bool exact_bound _) eqn:Hx; [discriminate|].
  intros H. injection H as <-. split; [exact Hz|]. split; [|reflexivity].
  apply Qnot_le_lt. intros Hle. apply Qle_bool_iff in Hle. congruence.
Qed.


(** A buy that returns either changes nothing or buys the exact floor of
    cash / price, a positive number of shares, from a flat position. *)
Lemma buy_cases e price e1 :
  buy e price = Ok e1 ->
  e1 = e \/
  (position e = 0%Z /\ ~ price == 0 /\ Qabs (cash e / price) < exact_bound /\
   (0 < Qfloor (cash e / price))%Z /\
   e1 = {| data := data e;
           initial_capital := initial_capital e;
           cash := cash e - (inject_Z (Qfloor (cash e / price)) * price +
                             inject_Z (Qfloor (cash e / price)) * price
                             * commission e);
           position := Qfloor (cash e / price);
           commission := commission e;
           trades := trades e ++ [(BUY, price, Qfloor (cash e / price))];
           portfolio_values := portfolio_values e |}).
Proof.
  unfold buy.
  destruct (Z.eqb_spec (position e) 0) as [Hp|Hp];
    [|intros H; injection H as <-; auto].
  destruct (floordiv_int (cash e) price) as [q| |] eqn:Hq; cbn [bind];
    try discriminate.
  apply floordiv_int_Ok in Hq as (Hz & Hx & ->).
  destruct (Z.leb_spec (Qfloor (cash e / price)) 0) as [Hq|Hq];
    intros H; injection H as <-; [auto|].
  right. repeat split; auto.
Qed.

Lemma buy_data e price e1 : buy e price = Ok e1 -> data e1 = data e.
Proof.
  intros H.
  destruct (@buy_cases _ _ _ H) as [-> | (_ & _ & _ & _ & ->)]; reflexivity.
Qed.

Lemma buy_commission e price e1 :
  buy e price = Ok e1 -> commission e1 = commission e.
Proof.
  intros H.
  destruct (@buy_cases _ _ _ H) as [-> | (_ & _ & _ & _ & ->)]; reflexivity.
Qed.

Lemma buy_portfolio_values e price e1 :
  buy e price = Ok e1 -> portfolio_values e1 = portfolio_values e.
Proof.
  intros H.
  destruct (@buy_cases _ _ _ H) as [-> | (_ & _ & _ & _ & ->)]; reflexivity.
Qed.

Lemma sell_data e price : data (sell e price) = data e.
Proof. unfold sell. now destruct (0 <? position e)%Z. Qed.

Lemma sell_commission e price : commission (sell e price) = commission e.
Proof. unfold sell. now destruct (0 <? position e)%Z. Qed.

Lemma sell_portfolio_values e price :
  portfolio_values (sell e price) = portfolio_values e.
Proof. unfold sell. now destruct (0 <? position e)%Z. Qed.

Lemma trade_rule_frame e price s0 s1 e1 :
  trade_rule e price s0 s1 = Ok e1 ->
  data e1 = data e /\ commission e1 = commission e /\
  portfolio_values e1 = portfolio_values e.
Proof.
  unfold trade_rule.
  destruct (_ && _)%bool.
  - intros H. repeat split;
      [eapply buy_data | eapply buy_commission | eapply buy_portfolio_values]; eauto.
  - destruct (_ && _)%bool; intros H; injection H as <-.
    + now rewrite sell_data, sell_commission, sell_portfolio_values.
    + auto.
Qed.

(** One iteration, once its two rows are known. *)
Lemma step_rows e i p r :
  nth_error (data e) i = Some p ->
  nth_error (data e) (S i) = Some r ->
  step e (S i) =
    (e1 <- trade_rule e (Close r) (signal p) (signal r) ;;
     Ok (append_value e1 (cash e1 + inject_Z (position e1) * Close r))).
Proof.
  intros Hp Hr. unfold step.
  rewrite (getitem_nat _ _ Hr), (getitem_pred _ _ Hp). reflexivity.
Qed.

Lemma step_frame e i e1 :
  step e i = Ok e1 ->
  data e1 = data e /\ commission e1 = commission e /\
  exists v, portfolio_values e1 = portfolio_values e ++ [v] /\
            v = cash e1 + inject_Z (position e1) *
                match nth_error (data e) i with Some r => Close r | None => 0 end.
Proof.
  unfold step. intros H.
  apply bind_Ok in H as (r & Hr & H).
  apply bind_Ok in H as (p & Hp & H).
  apply bind_Ok in H as (e2 & He2 & H).
  injection H as <-. simpl.
  apply trade_rule_frame in He2 as (Hd & Hc & Hv).
  repeat split; auto.
  eexists; split; [now rewrite Hv|].
  now rewrite (getitem_nat_inv _ _ Hr).
Qed.

Lemma loop_app e l1 l2 :
  loop e (l1 ++ l2) = (e1 <- loop e l1 ;; loop e1 l2).
Proof.
  revert e. induction l1 as [|i l1 IH]; intros e; simpl; [reflexivity|].
  destruct (step e i); simpl; auto.
Qed.

Lemma loop_snoc e l i :
  loop e (l ++ [i]) = (e1 <- loop e l ;; step e1 i).
Proof.
  rewrite loop_app. destruct (loop e l) as [a| |]; simpl; try reflexivity.
  now destruct (step a i).
Qed.

Lemma loop_frame e l e1 :
  loop e l = Ok e1 ->
  data e1 = data e /\ commission e1 = commission e /\
  length (portfolio_values e1) = (length (portfolio_values e) + length l)%nat.
Proof.
  revert e. induction l as [|i l IH]; intros e; simpl.
  - intros H. injection H as <-. repeat split; lia.
  - intros H. apply bind_Ok in H as (e2 & He2 & H).
    apply IH in H as (Hd & Hc & Hl).
    apply step_frame in He2 as (Hd2 & Hc2 & v & Hv & _).
    rewrite Hd, Hc, Hl, Hv, length_app. simpl. repeat split; auto; lia.
Qed.

(** C1 (the code departs from the claim on the empty frame).  With no row at
    all [run_backtest] raises [IndexError] at [iloc[-1]]; with exactly one row
    it returns the initial capital and leaves the value series and the trade
    log empty. *)
Theorem C1_degenerate_input :
  forall capital comm,
    run_backtest (init [] capital comm) = Raise IndexError /\
    forall r, exists final_value e1,
      run_backtest (init [r] capital comm) = Ok (final_value, e1) /\
      final_value == capital /\
      portfolio_values e1 = [] /\ trades e1 = [].
Proof.
  intros capital comm. split; [reflexivity|].
  intros r. eexists. eexists. split; [reflexivity|].
  simpl. split; [ring|]. split; reflexivity.
Qed.

(** C4.  The worked example: prices [10, 12, 9, 15], signals [-1, 1, 1, -1],
    capital 1000, no commission give the trades BUY 83 @ 12 and SELL 83 @ 15,
    the final value 1249 and the value series [1000, 751, 1249]. *)
Theorem C4_worked_example :
  exists e1,
    run_backtest (init example_data 1000 0) = Ok (1249, e1) /\
    trades e1 = [(BUY, 12, 83%Z); (SELL, 15, 83%Z)] /\
    portfolio_values e1 = [1000; 751; 1249].
Proof.
  eexists. split; [vm_compute; reflexivity|]. split; reflexivity.
Qed.

(** ** One step of the loop *)




Lemma getitem_minus1 {A : Type} (l : list A) (a : A) :
  getitem l (-1) = Ok a -> nth_error l (length l - 1) = Some a.
Proof.
  destruct l as [|x l]; [now rewrite getitem_nil|].
  destruct (exists_last (l := x :: l)) as (l' & b & ->); [discriminate|].
  rewrite getitem_last. intros H. injection H as <-.
  rewrite length_app, nth_error_app2 by (simpl; lia).
  simpl. now replace (length l' + 1 - 1 - length l')%nat with 0%nat by lia.
Qed.

(** ** Cash along a run *)

Lemma floor_quantity_affordable (c price : Q) :
  0 < price -> inject_Z (Qfloor (c / price)) * price <= c.
Proof.
  intros Hp.
  assert (H := Qfloor_le (c / price)).
  assert (E : c / price * price == c) by (field; lra).
  rewrite <- E at 2. apply Qmult_le_compat_r; lra.
Qed.






(** ** The win ratio *)

Lemma list_pair_ind {A : Type} (P : list A -> Prop) :
  P [] -> (forall a, P [a]) -> (forall a b l, P l -> P (a :: b :: l)) ->
  forall l, P l.
Proof.
  intros H0 H1 H2. fix IH 1. intros [|a [|b l]].
  - exact H0.
  - apply H1.
  - apply H2, IH.
Qed.

Lemma getitem_middle {A : Type} (pre : list A) (a : A) (post : list A) :
  getitem (pre ++ a :: post) (Z.of_nat (length pre)) = Ok a.
Proof.
  apply getitem_nat. rewrite nth_error_app2, Nat.sub_diag; auto.
Qed.

Lemma profits_loop_pairs (ts : list trade) :
  forall pre acc,
    profits_loop (pre ++ ts)
      (map (fun k => (length pre + 1 + k * 2)%nat) (seq 0 (length ts / 2))) acc
    = Ok (acc ++ map pair_profit (closed_pairs ts)).
Proof.
  induction ts as [|a|b s rest IH] using list_pair_ind; intros pre acc.
  - simpl. now rewrite app_nil_r.
  - simpl. now rewrite app_nil_r.
  - replace (length (b :: s :: rest)) with (1 * 2 + length rest)%nat
      by (simpl; lia).
    rewrite Nat.div_add_l by lia.
    change (1 + length rest / 2)%nat with (S (length rest / 2)).
    rewrite <- cons_seq, <- seq_shift.
    cbn [map profits_loop]. rewrite map_map.
    replace (Z.of_nat (length pre + 1 + 0 * 2) - 1)%Z
      with (Z.of_nat (length pre)) by lia.
    rewrite getitem_middle. cbn [bind].
    replace (pre ++ b :: s :: rest) with ((pre ++ [b]) ++ s :: rest)
      by (now rewrite <- app_assoc).
    replace (length pre + 1 + 0 * 2)%nat with (length (pre ++ [b]))
      by (rewrite length_app; simpl; lia).
    rewrite getitem_middle. cbn [bind].
    replace ((pre ++ [b]) ++ s :: rest) with ((pre ++ [b; s]) ++ rest)
      by (now rewrite <- !app_assoc).
    rewrite (map_ext _ (fun k => (length (pre ++ [b; s]) + 1 + k * 2)%nat))
      by (intros k; rewrite !length_app; simpl; lia).
    rewrite IH. cbn [closed_pairs map]. now rewrite <- app_assoc.
Qed.

Lemma win_ratio_pairs (ts : list trade) :
  win_ratio ts =
    Ok (let profits := map pair_profit (closed_pairs ts) in
        match profits with
        | [] => 0
        | _ => len_Q (filter Qpositive profits) / len_Q profits
        end).
Proof.
  unfold win_ratio, py_range.
  replace ((length ts - 1 + (2 - 1)) / 2)%nat with (length ts / 2)%nat.
  - rewrite (map_ext _ (fun k => (length (@nil trade) + 1 + k * 2)%nat))
      by (intros k; simpl; lia).
    pose proof (profits_loop_pairs ts [] []) as H. cbn [app] in H.
    rewrite H. reflexivity.
  - destruct ts as [|t ts]; [reflexivity|].
    f_equal. simpl. lia.
Qed.

Lemma filter_map_length {A B : Type} (f : A -> B) (p : B -> bool) (l : list A) :
  length (filter p (map f l)) = length (filter (fun a => p (f a)) l).
Proof.
  induction l as [|a l IH]; simpl; [reflexivity|].
  destruct (p (f a)); simpl; now rewrite IH.
Qed.

Lemma filter_length_le {A : Type} (p : A -> bool) (l : list A) :
  (length (filter p l) <= length l)%nat.
Proof.
  induction l as [|a l IH]; simpl; [lia|]. destruct (p a); simpl; lia.
Qed.

Lemma len_Q_le {A B : Type} (a : list A) (b : list B) :
  (length a <= length b)%nat -> len_Q a <= len_Q b.
Proof. intros H. unfold len_Q. rewrite <- Zle_Qle. lia. Qed.

Lemma len_Q_pos {A : Type} (a : list A) : a <> [] -> 0 < len_Q a.
Proof.
  intros H. unfold len_Q. change 0 with (inject_Z 0). rewrite <- Zlt_Qlt.
  destruct a; [congruence | simpl; lia].
Qed.

Lemma len_Q_nonneg {A : Type} (a : list A) : 0 <= len_Q a.
Proof.
  unfold len_Q. change 0 with (inject_Z 0). rewrite <- Zle_Qle. lia.
Qed.

Lemma Qpositive_spec (q : Q) : Qpositive q = true <-> 0 < q.
Proof.
  unfold Qpositive. rewrite Qlt_alt.
  destruct (0 ?= q); split; congruence.
Qed.

(** The win ratio in terms of the closed pairs of the trade log. *)
Lemma win_ratio_spec (ts : list trade) :
  exists w,
    win_ratio ts = Ok w /\
    0 <= w /\ w <= 1 /\
    (closed_pairs ts <> [] ->
     w == len_Q (filter winning (closed_pairs ts)) / len_Q (closed_pairs ts)) /\
    (closed_pairs ts = [] -> w = 0) /\
    ((length ts < 2)%nat -> w = 0).
Proof.
  rewrite win_ratio_pairs.
  destruct (closed_pairs ts) as [|pr prs] eqn:E.
  - exists 0. simpl. repeat split; auto; try lra.
  - eexists. split; [reflexivity|]. cbv zeta. cbn [map].
    set (profits := pair_profit pr :: map pair_profit prs).
    assert (Hlen : len_Q profits == len_Q (pr :: prs))
      by (unfold len_Q, profits; simpl; now rewrite length_map).
    assert (Hwin : len_Q (filter Qpositive profits)
                   == len_Q (filter winning (pr :: prs)))
      by (unfold len_Q; change profits with (map pair_profit (pr :: prs));
          now rewrite filter_map_length).
    assert (Hpos : 0 < len_Q profits)
      by (apply len_Q_pos; unfold profits; congruence).
    assert (Hle : len_Q (filter Qpositive profits) <= len_Q profits)
      by (apply len_Q_le, filter_length_le).
    assert (H0 := len_Q_nonneg (filter Qpositive profits)).
    split; [apply Qle_shift_div_l; lra|].
    split; [apply Qle_shift_div_r; lra|].
    split; [intros _; now rewrite Hwin, Hlen|].
    split; [congruence|].
    intros Hshort. destruct ts as [|a [|b ts]]; simpl in *; try discriminate; lia.
Qed.

(** ** The drawdown *)

Lemma Qneg_spec (q : Q) : np.Qneg q = true <-> q < 0.
Proof.
  unfold np.Qneg. rewrite Qlt_alt. destruct (q ?= 0); split; congruence.
Qed.

Lemma Qneg_false (q : Q) : np.Qneg q = false <-> 0 <= q.
Proof.
  rewrite <- Bool.not_true_iff_false, Qneg_spec. split; intros H; lra.
Qed.

Lemma maximum_Fin (m x : Q) :
  np.maximum (np.Fin m) (np.Fin x) = np.Fin (running_max m x).
Proof.
  unfold np.maximum, running_max. cbn [np.isnan np.less].
  now destruct (np.Qneg (m - x)).
Qed.

Lemma minimum_Fin (a b : Q) :
  np.minimum (np.Fin a) (np.Fin b) = np.Fin (if np.Qneg (b - a) then b else a).
Proof.
  unfold np.minimum. cbn [np.isnan np.less]. now destruct (np.Qneg (b - a)).
Qed.

Lemma running_max_cases (m x : Q) :
  (m < x /\ running_max m x = x) \/ (x <= m /\ running_max m x = m).
Proof.
  unfold running_max. destruct (np.Qneg (m - x)) eqn:E.
  - apply Qneg_spec in E. left. split; [lra | reflexivity].
  - apply Qneg_false in E. right. split; [lra | reflexivity].
Qed.

Lemma divide_Fin (a b : Q) :
  ~ b == 0 -> np.divide (np.Fin a) (np.Fin b) = np.Fin (a / b).
Proof. intros H. unfold np.divide. now rewrite (Qeq_bool_false H). Qed.

Lemma Qdiv_eq0 (a b : Q) : 0 < b -> (a / b == 0 <-> a == 0).
Proof.
  intros Hb. split; intros H.
  - assert (E : a == a / b * b) by (field; lra). rewrite H in E. lra.
  - rewrite H. field. lra.
Qed.

Lemma drawdown_cons (x : np.float64) (rest : list np.float64) :
  drawdown (x :: rest) = np.divide (np.subtract x x) x :: drawdown_from x rest.
Proof. reflexivity. Qed.

Lemma Sorted_head_Qeq (a b : Q) (l : list Q) :
  a == b -> Sorted Qle (a :: l) -> Sorted Qle (b :: l).
Proof.
  intros E H. apply Sorted_inv in H as (Hs & Hh).
  constructor; [exact Hs|].
  destruct l as [|c l]; constructor.
  apply HdRel_inv in Hh. lra.
Qed.

Lemma drawdown_from_Fin (l : list Q) :
  forall m, 0 < m ->
  exists ds,
    drawdown_from (np.Fin m) (np.array l) = map np.Fin ds /\
    Forall (fun d => d <= 0) ds /\
    (Forall (fun d => d == 0) ds <-> Sorted Qle (m :: l)).
Proof.
  induction l as [|x l IH]; intros m Hm.
  - exists []. repeat split; auto.
  - unfold drawdown_from, np.array. cbn [map np.accumulate].
    rewrite maximum_Fin. cbv zeta.
    assert (Hm' : 0 < running_max m x)
      by (destruct (running_max_cases m x) as [(? & ->) | (? & ->)]; lra).
    destruct (IH _ Hm') as (ds & Hds & Hle & Hzero).
    exists ((x - running_max m x) / running_max m x :: ds).
    unfold np.elementwise. cbn [combine map fst snd].
    split; [|split].
    + f_equal; [apply divide_Fin; lra | exact Hds].
    + constructor; [|exact Hle].
      apply Qle_shift_div_r; [exact Hm'|].
      destruct (running_max_cases m x) as [(? & ->) | (? & ->)]; lra.
    + split.
      * intros H. apply Forall_cons_iff in H as (Hd & Hall).
        apply Qdiv_eq0 in Hd; [|exact Hm'].
        apply Hzero in Hall.
        assert (Hmx : m <= x)
          by (destruct (running_max_cases m x) as [(? & E) | (? & E)];
              rewrite E in Hd; lra).
        constructor; [|constructor; exact Hmx].
        apply Sorted_head_Qeq with (a := running_max m x); [lra | exact Hall].
      * intros H. apply Sorted_inv in H as (Hs & Hh). apply HdRel_inv in Hh.
        assert (E : x == running_max m x)
          by (destruct (running_max_cases m x) as [(? & ->) | (? & ->)]; lra).
        constructor.
        -- apply Qdiv_eq0; [exact Hm' | lra].
        -- apply Hzero. now apply Sorted_head_Qeq with (a := x).
Qed.

Lemma fold_minimum_Fin (ds : list Q) :
  forall d0, exists d,
    fold_left np.minimum (map np.Fin ds) (np.Fin d0) = np.Fin d /\
    d <= d0 /\ Forall (fun x => d <= x) ds /\ (d = d0 \/ In d ds).
Proof.
  induction ds as [|x ds IH]; intros d0; cbn [map fold_left].
  - exists d0. repeat split; auto. lra.
  - rewrite minimum_Fin.
    destruct (IH (if np.Qneg (x - d0) then x else d0))
      as (d & Hd & Hle & Hall & Hin).
    exists d. split; [exact Hd|].
    destruct (np.Qneg (x - d0)) eqn:E;
      [apply Qneg_spec in E | apply Qneg_false in E].
    + split; [lra|]. split; [constructor; [lra | exact Hall]|].
      destruct Hin as [-> | Hin]; right; [now left | now right].
    + split; [lra|]. split; [constructor; [lra | exact Hall]|].
      destruct Hin as [-> | Hin]; [now left | right; now right].
Qed.

(** The maximum drawdown of a finite series that starts above zero. *)
Lemma max_drawdown_spec (v0 : Q) (rest : list Q) :
  0 < v0 ->
  exists d,
    max_drawdown (np.array (v0 :: rest)) = Ok (np.Fin d) /\
    d <= 0 /\ (d == 0 <-> nondecreasing (v0 :: rest)).
Proof.
  intros Hv. unfold max_drawdown, nondecreasing, np.array. cbn [map].
  rewrite drawdown_cons.
  destruct (@drawdown_from_Fin rest v0 Hv) as (ds & Hds & Hle & Hzero).
  unfold np.array in Hds. rewrite Hds.
  change (np.subtract (np.Fin v0) (np.Fin v0)) with (np.Fin (v0 - v0)).
  rewrite divide_Fin by lra. cbn [np.min].
  destruct (fold_minimum_Fin ds ((v0 - v0) / v0)) as (d & Hd & Hd0 & Hall & Hin).
  assert (E0 : (v0 - v0) / v0 == 0) by (apply Qdiv_eq0; lra).
  exists d. split; [now rewrite Hd|]. split; [lra|].
  rewrite <- Hzero. rewrite Forall_forall in Hall, Hle. split.
  - intros Ed. apply Forall_forall. intros x Hx.
    specialize (Hall x Hx). specialize (Hle x Hx). lra.
  - intros Hz. rewrite Forall_forall in Hz.
    destruct Hin as [-> | Hin]; [exact E0 | now apply Hz].
Qed.

(** ** The per-step returns *)




(** ** What [run_backtest] leaves behind *)

Lemma step_initial_capital e i e1 :
  step e i = Ok e1 -> initial_capital e1 = initial_capital e.
Proof.
  unfold step. intros H.
  apply bind_Ok in H as (r & _ & H).
  apply bind_Ok in H as (p & _ & H).
  apply bind_Ok in H as (e2 & He2 & H).
  injection H as <-. cbn [append_value initial_capital].
  unfold trade_rule, buy, sell, floordiv_int in He2.
  repeat match type of He2 with
         | context [if ?c then _ else _] => destruct c; cbn [bind] in He2
         end;
    try discriminate; injection He2 as <-; reflexivity.
Qed.

Lemma loop_initial_capital e l e1 :
  loop e l = Ok e1 -> initial_capital e1 = initial_capital e.
Proof.
  revert e. induction l as [|i l IH]; intros e; cbn [loop].
  - intros H. now injection H as <-.
  - intros H. apply bind_Ok in H as (e2 & He2 & H).
    rewrite (IH _ H). eapply step_initial_capital, He2.
Qed.

Lemma run_backtest_loop e final_value e1 :
  run_backtest e = Ok (final_value, e1) ->
  loop e (seq 1 (length (data e) - 1)) = Ok e1.
Proof.
  unfold run_backtest. rewrite py_range_step1. intros H.
  apply bind_Ok in H as (e2 & Hloop & H).
  apply bind_Ok in H as (r & _ & H).
  injection H as _ <-. exact Hloop.
Qed.

Lemma run_backtest_final_value e final_value e1 :
  (2 <= length (data e))%nat ->
  run_backtest e = Ok (final_value, e1) ->
  getitem (portfolio_values e1) (-1) = Ok final_value.
Proof.
  intros Hlen H. unfold run_backtest in H. rewrite py_range_step1 in H.
  destruct (length (data e)) as [|[|k]] eqn:Hn; [lia | lia |].
  replace (S (S k) - 1)%nat with (S k) in H by lia.
  apply bind_Ok in H as (e2 & Hloop & H).
  apply bind_Ok in H as (r & Hr & H).
  injection H as <- <-.
  rewrite seq_S, loop_snoc in Hloop.
  apply bind_Ok in Hloop as (e3 & He3 & Hstep).
  apply loop_frame in He3 as (Hd3 & _).
  apply step_frame in Hstep as (Hd2 & _ & v & Hv & Hval).
  apply getitem_minus1 in Hr.
  rewrite Hd2, Hd3, Hn in Hr. rewrite Hd3 in Hval.
  replace (S (S k) - 1)%nat with (1 + k)%nat in Hr by lia.
  rewrite Hr in Hval. rewrite Hv, getitem_last. now subst v.
Qed.


(** ** [calculate_performance] *)

Lemma getitem_array_last (values : list Q) (v : Q) :
  getitem values (-1) = Ok v ->
  getitem (np.array values) (-1) = Ok (np.Fin v).
Proof.
  destruct values as [|x l]; [now rewrite getitem_nil|].
  destruct (exists_last (l := x :: l)) as (l' & b & ->); [discriminate|].
  rewrite getitem_last. intros H. injection H as <-.
  unfold np.array. rewrite map_app. cbn [map]. apply getitem_last.
Qed.

Section PerformanceFacts.
Variable power : np.float64 -> np.float64 -> np.float64.
Variable sqrt : np.float64 -> np.float64.

(** With at least two recorded values and a non-empty frame the metrics are
    returned, each field as the source computes it. *)
Lemma calculate_performance_returns (e : engine) :
  (2 <= length (portfolio_values e))%nat ->
  data e <> [] ->
  exists m v_last,
    calculate_performance power sqrt e = Ok (Some m) /\
    getitem (portfolio_values e) (-1) = Ok v_last /\
    Total_Return m =
      np.divide (np.Fin (v_last - initial_capital e)) (np.Fin (initial_capital e)) /\
    Annualized_Return m =
      np.subtract (power (np.add (np.Fin 1) (Total_Return m))
                         (np.Fin (252 / len_Q (data e))))
                  (np.Fin 1) /\
    Volatility m =
      np.multiply (np.std sqrt (daily_returns (np.array (portfolio_values e))))
                  (sqrt (np.Fin 252)) /\
    max_drawdown (np.array (portfolio_values e)) = Ok (Max_Drawdown m) /\
    win_ratio (trades e) = Ok (Win_Ratio m).
Proof.
  intros Hlen Hdata. unfold calculate_performance.
  destruct (Nat.ltb_spec (length (portfolio_values e)) 2) as [Hn|_]; [lia|].
  destruct (exists_last (l := portfolio_values e)) as (l' & v_last & Hl).
  { intros E. rewrite E in Hlen. simpl in Hlen. lia. }
  assert (Hlast : getitem (portfolio_values e) (-1) = Ok v_last)
    by (rewrite Hl; apply getitem_last).
  rewrite (getitem_array_last _ Hlast). cbn [bind].
  destruct (data e) as [|r0 d] eqn:Hd; [congruence|].
  cbn [truediv length bind].
  destruct (win_ratio_spec (trades e)) as (w & Hw & _).
  assert (Hmd : exists md, max_drawdown (np.array (portfolio_values e)) = Ok md).
  { destruct (portfolio_values e) as [|x l]; [simpl in Hlen; lia|].
    unfold max_drawdown, np.array. cbn [map]. rewrite drawdown_cons.
    cbn [np.min]. eauto. }
  destruct Hmd as (md & Hmd).
  rewrite Hmd, Hw. cbn [bind].
  eexists. exists v_last. split; [reflexivity|].
  cbn [Total_Return Annualized_Return Volatility Max_Drawdown Win_Ratio].
  repeat split; auto.
Qed.



(** C8.  Whenever the metrics are computed, the win ratio lies in [0, 1];
    it is the number of winning pairs over the number of pairs, the pairs
    being the consecutive trades (t0, t1), (t2, t3), ... from the first trade
    on, a trailing unmatched trade left out, and a pair winning when
    (sell price - buy price) * buy quantity > 0; and it is exactly 0 when
    the trade log has fewer than 2 entries. *)
Theorem C8_win_ratio :
  forall e,
    (2 <= length (portfolio_values e))%nat ->
    data e <> [] ->
    exists m,
      calculate_performance power sqrt e = Ok (Some m) /\
      0 <= Win_Ratio m /\ Win_Ratio m <= 1 /\
      (closed_pairs (trades e) <> [] ->
       Win_Ratio m == len_Q (filter winning (closed_pairs (trades e)))
                      / len_Q (closed_pairs (trades e))) /\
      (forall p, winning p = true <->
                 0 < (trade_price (snd p) - trade_price (fst p))
                     * inject_Z (trade_qty (fst p))) /\
      ((length (trades e) < 2)%nat -> Win_Ratio m = 0).
Proof.
  intros e Hlen Hdata.
  destruct (calculate_performance_returns e Hlen Hdata)
    as (m & v_last & Hm & _ & _ & _ & _ & _ & Hw).
  destruct (win_ratio_spec (trades e)) as (w & Hw' & H0 & H1 & Hratio & _ & Hshort).
  assert (E : Win_Ratio m = w) by congruence.
  exists m. rewrite E. split; [exact Hm|].
  split; [exact H0|]. split; [exact H1|]. split; [exact Hratio|].
  split; [intros p; apply Qpositive_spec | exact Hshort].
Qed.

(** C9.  After a run that recorded at least two values, the annualized
    return is (1 + total return) ** (252 / N) - 1 with N the number of rows
    of the price frame, which is one more than the number of recorded
    values. *)
Theorem C9_annualized_return :
  forall d capital comm final_value e1,
    run_backtest (init d capital comm) = Ok (final_value, e1) ->
    (2 <= length (portfolio_values e1))%nat ->
    exists m,
      calculate_performance power sqrt e1 = Ok (Some m) /\
      Total_Return m =
        np.divide (np.Fin (final_value - capital)) (np.Fin capital) /\
      Annualized_Return m =
        np.subtract (power (np.add (np.Fin 1) (Total_Return m))
                           (np.Fin (252 / len_Q d)))
                    (np.Fin 1) /\
      length d = S (length (portfolio_values e1)).
Proof.
  intros d capital comm fv e1 Hrun Hlen.
  assert (Hloop := run_backtest_loop _ Hrun). cbn [init data] in Hloop.
  destruct (loop_frame _ _ Hloop) as (Hd & _ & Hpv).
  rewrite length_seq in Hpv. cbn [init data portfolio_values length] in Hd, Hpv.
  assert (Hcap := loop_initial_capital _ _ Hloop). cbn [init initial_capital] in Hcap.
  assert (Hn : length d = S (length (portfolio_values e1))) by lia.
  assert (Hfv := @run_backtest_final_value (init d capital comm) fv e1).
  cbn [init data] in Hfv. specialize (Hfv ltac:(lia) Hrun).
  destruct (@calculate_performance_returns e1 Hlen)
    as (m & v_last & Hm & Hlast & Htot & Hann & _).
  { rewrite Hd. intros E. rewrite E in Hn. discriminate. }
  exists m. split; [exact Hm|].
  assert (v_last = fv) by congruence. subst v_last.
  rewrite Hcap, Hd in *.
  split; [exact Htot|]. split; [exact Hann | exact Hn].
Qed.

End PerformanceFacts.

(** ** Runs from valid inputs *)

Lemma step_portfolio_prefix e i e1 :
  step e i = Ok e1 ->
  exists suffix, portfolio_values e1 = portfolio_values e ++ suffix.
Proof.
  intros H. apply step_frame in H as (_ & _ & v & Hv & _). eauto.
Qed.

Lemma loop_portfolio_prefix e l e1 :
  loop e l = Ok e1 ->
  exists suffix, portfolio_values e1 = portfolio_values e ++ suffix.
Proof.
  revert e. induction l as [|i l IH]; intros e; cbn [loop].
  - intros H. injection H as <-. exists []. now rewrite app_nil_r.
  - intros H. apply bind_Ok in H as (e2 & He2 & H).
    apply IH in H as (s2 & ->).
    apply step_portfolio_prefix in He2 as (s1 & ->).
    exists (s1 ++ s2). now rewrite app_assoc.
Qed.

Lemma first_value_positive d capital comm e1 :
  0 < capital -> 0 <= comm -> comm <= 1 # 2 ->
  Forall (fun r => 0 < Close r) d ->
  step (init d capital comm) 1 = Ok e1 ->
  exists v, portfolio_values e1 = [v] /\ 0 < v.
Proof.
  intros Hcap Hc0 Hc1 Hall H. unfold step in H.
  apply bind_Ok in H as (r & Hr & H).
  apply bind_Ok in H as (p & _ & H).
  apply bind_Ok in H as (e2 & He2 & H).
  injection H as <-.
  assert (Hprice : 0 < Close r).
  { rewrite Forall_forall in Hall. apply Hall.
    eapply nth_error_In, getitem_nat_inv, Hr. }
  assert (Hval : portfolio_values e2 = [] /\
                 0 < cash e2 + inject_Z (position e2) * Close r).
  { unfold trade_rule in He2.
    assert (Hflat : 0 < cash (init d capital comm)
                        + inject_Z (position (init d capital comm)) * Close r)
      by (cbn [init cash position]; change (inject_Z 0) with 0; lra).
    destruct (_ && _)%bool;
      [|destruct (_ && _)%bool; injection He2 as <-; split; auto; reflexivity].
    destruct (@buy_cases _ _ _ He2) as [-> | (_ & _ & _ & Hq & ->)];
      [split; auto; reflexivity|].
    cbn [init cash commission] in Hq |- *.
    set (q := Qfloor (capital / Close r)) in *.
    cbn [init cash position portfolio_values].
    split; [reflexivity|].
    assert (Ha : inject_Z q * Close r <= capital)
      by now apply floor_quantity_affordable.
    assert (Hq1 : 1 <= inject_Z q).
    { change 1 with (inject_Z 1). rewrite <- Zle_Qle. lia. }
    assert (0 <= (capital - inject_Z q * Close r) * comm)
      by (apply Qmult_le_0_compat; lra).
    nra. }
  destruct Hval as (Hpv & Hpos).
  eexists. cbn [append_value portfolio_values]. rewrite Hpv. split; [reflexivity|].
  exact Hpos.
Qed.

(** With positive prices, a positive capital and a commission rate of at
    most 1/2, the first value that [run_backtest] records is positive, so
    the recorded series meets the hypothesis under which the maximum
    drawdown is characterised.  (The margin keeps the value clear of the
    rounding that a rate within an ulp of 1 would bring into play.) *)
Lemma run_backtest_first_value_positive d capital comm final_value e1 :
  0 < capital -> 0 <= comm -> comm <= 1 # 2 ->
  Forall (fun r => 0 < Close r) d ->
  (2 <= length d)%nat ->
  run_backtest (init d capital comm) = Ok (final_value, e1) ->
  exists v0 rest, portfolio_values e1 = v0 :: rest /\ 0 < v0.
Proof.
  intros Hcap Hc0 Hc1 Hall Hlen Hrun.
  apply run_backtest_loop in Hrun. cbn [init data] in Hrun.
  destruct (length d) as [|[|k]]; [lia | lia |].
  replace (S (S k) - 1)%nat with (S k) in Hrun by lia.
  rewrite <- cons_seq in Hrun. cbn [loop] in Hrun.
  apply bind_Ok in Hrun as (e2 & He2 & Hrest).
  destruct (first_value_positive Hcap Hc0 Hc1 Hall He2) as (v & Hv & Hpos).
  apply loop_portfolio_prefix in Hrest as (suffix & ->).
  rewrite Hv. exists v, suffix. split; [reflexivity | exact Hpos].
Qed.

Lemma trade_rule_log_agrees e price s0 s1 e1 :
  log_agrees e -> trade_rule e price s0 s1 = Ok e1 -> log_agrees e1.
Proof.
  intros Hinv. unfold trade_rule.
  destruct (_ && _)%bool.
  - intros H.
    destruct (@buy_cases _ _ _ H) as [-> | (Hp & _ & _ & Hq & ->)];
      [exact Hinv|].
    right. cbn [position trades]. split; [lia|].
    destruct Hinv as [(_ & Hflat) | (Hpos & _)]; [|lia].
    exists (trades e), price. auto.
  - destruct (_ && _)%bool; intros H; injection H as <-; [|exact Hinv].
    unfold sell. destruct (Z.ltb_spec 0 (position e)) as [Hq|Hq]; [|exact Hinv].
    left. cbn [position trades]. split; [reflexivity|].
    destruct Hinv as [(Hp & _) | (_ & ts & p & Hflat & ->)]; [lia|].
    rewrite <- app_assoc. cbn [app]. now constructor.
Qed.

Lemma step_log_agrees e i e1 :
  log_agrees e -> step e i = Ok e1 -> log_agrees e1.
Proof.
  intros Hinv H. unfold step in H.
  apply bind_Ok in H as (r & _ & H).
  apply bind_Ok in H as (p & _ & H).
  apply bind_Ok in H as (e2 & He2 & H).
  injection H as <-.
  exact (@trade_rule_log_agrees _ _ _ _ _ Hinv He2).
Qed.

Lemma loop_log_agrees e l e1 :
  log_agrees e -> loop e l = Ok e1 -> log_agrees e1.
Proof.
  revert e. induction l as [|i l IH]; intros e Hinv; cbn [loop].
  - intros H. now injection H as <-.
  - intros H. apply bind_Ok in H as (e2 & He2 & H).
    eapply IH; [|exact H]. eapply step_log_agrees; eauto.
Qed.

Lemma closed_pairs_app (ts : list trade) (a b : trade) (rest : list trade) :
  Nat.Even (length ts) ->
  closed_pairs (ts ++ a :: b :: rest) = closed_pairs ts ++ (a, b) :: closed_pairs rest.
Proof.
  induction ts as [|x|x y ts IH] using list_pair_ind; intros Hev.
  - reflexivity.
  - destruct Hev as (k & Hk). simpl in Hk. lia.
  - cbn [app closed_pairs]. rewrite IH; [reflexivity|].
    destruct Hev as (k & Hk). exists (k - 1)%nat. simpl in Hk. lia.
Qed.

Lemma flat_log_pairs (ts : list trade) :
  flat_log ts ->
  Nat.Even (length ts) /\ Forall buy_sell_pair (closed_pairs ts).
Proof.
  induction 1 as [|ts p q p' _ (Hev & Hall)].
  - split; [exists 0%nat; reflexivity | constructor].
  - split.
    + destruct Hev as (k & Hk). exists (S k).
      rewrite length_app. simpl. lia.
    + rewrite closed_pairs_app by exact Hev. cbn [closed_pairs].
      apply Forall_app. split; [exact Hall|].
      constructor; [|constructor]. repeat split.
Qed.

(** The pairs that the win ratio counts are, on the log of a run, a BUY
    followed by the SELL of the same quantity. *)
Lemma run_backtest_trades_paired d capital comm final_value e1 :
  run_backtest (init d capital comm) = Ok (final_value, e1) ->
  log_agrees e1 /\ Forall buy_sell_pair (closed_pairs (trades e1)).
Proof.
  intros Hrun. apply run_backtest_loop in Hrun.
  assert (Hinv : log_agrees e1).
  { eapply loop_log_agrees; [|exact Hrun]. left. split; [reflexivity | constructor]. }
  split; [exact Hinv|].
  destruct Hinv as [(_ & Hflat) | (_ & ts & p & Hflat & ->)].
  - now apply flat_log_pairs.
  - apply flat_log_pairs in Hflat as (Hev & Hall).
    assert (E : closed_pairs (ts ++ [(BUY, p, position e1)]) = closed_pairs ts).
    { clear Hall. induction ts as [|x|x y ts IH] using list_pair_ind.
      - reflexivity.
      - destruct Hev as (k & Hk). simpl in Hk. lia.
      - cbn [app closed_pairs]. rewrite IH; [reflexivity|].
        destruct Hev as (k & Hk). exists (k - 1)%nat. simpl in Hk. lia. }
    now rewrite E.
Qed.

(** ** Counterexamples *)




(** ** The theorems at concrete inputs *)

Lemma example_run :
  run_backtest (init example_data 1000 0) = Ok (1249, example_engine).
Proof. reflexivity. Qed.

Example example_metrics :
  exists m,
    calculate_performance power_on_integers sqrt_on_squares example_engine
      = Ok (Some m) /\
    Total_Return m = np.Fin (249 # 1000) /\
    Max_Drawdown m = np.Fin (- (249 # 1000)) /\
    Win_Ratio m = 1.
Proof. eexists. split; [vm_compute; reflexivity|]. repeat split. Qed.






Lemma C8_witness :
  exists m,
    calculate_performance power_on_integers sqrt_on_squares example_engine
      = Ok (Some m) /\
    0 <= Win_Ratio m /\ Win_Ratio m <= 1.
Proof.
  destruct (@C8_win_ratio power_on_integers sqrt_on_squares example_engine)
    as (m & Hm & H0 & H1 & _).
  - simpl. lia.
  - discriminate.
  - exists m. split; [exact Hm|]. split; [exact H0 | exact H1].
Defined.

Lemma C9_witness :
  exists m,
    calculate_performance power_on_integers sqrt_on_squares example_engine
      = Ok (Some m) /\
    Total_Return m = np.divide (np.Fin (1249 - 1000)) (np.Fin 1000) /\
    Annualized_Return m =
      np.subtract (power_on_integers (np.add (np.Fin 1) (Total_Return m))
                                     (np.Fin (252 / len_Q example_data)))
                  (np.Fin 1) /\
    length example_data = S (length (portfolio_values example_engine)).
Proof.
  apply (@C9_annualized_return power_on_integers sqrt_on_squares
           example_data 1000 0 1249 example_engine).
  - reflexivity.
  - simpl. lia.
Defined.


(** * Further properties of the simulator *)

(** ** Inversion of one step *)

Lemma trade_rule_cases e price s0 s1 e1 :
  trade_rule e price s0 s1 = Ok e1 ->
  e1 = e \/
  (s0 = (-1)%Z /\ s1 = 1%Z /\ position e = 0%Z /\ ~ price == 0 /\
   (0 < Qfloor (cash e / price))%Z /\
   e1 = {| data := data e;
           initial_capital := initial_capital e;
           cash := cash e - (inject_Z (Qfloor (cash e / price)) * price +
                             inject_Z (Qfloor (cash e / price)) * price
                             * commission e);
           position := Qfloor (cash e / price);
           commission := commission e;
           trades := trades e ++ [(BUY, price, Qfloor (cash e / price))];
           portfolio_values := portfolio_values e |}) \/
  (s0 = 1%Z /\ s1 = (-1)%Z /\ (0 < position e)%Z /\
   e1 = {| data := data e;
           initial_capital := initial_capital e;
           cash := cash e + (inject_Z (position e) * price -
                             inject_Z (position e) * price * commission e);
           position := 0;
           commission := commission e;
           trades := trades e ++ [(SELL, price, position e)];
           portfolio_values := portfolio_values e |}).
Proof.
  unfold trade_rule.
  destruct (Z.eqb_spec s0 (-1)) as [H0|H0]; destruct (Z.eqb_spec s1 1) as [H1|H1];
    cbn [andb].
  - intros H.
    destruct (@buy_cases _ _ _ H) as [-> | (Hp & Hz & _ & Hq & ->)]; [auto|].
    right. left. repeat split; auto.
  - destruct (Z.eqb_spec s0 1); [lia|]. cbn [andb].
    intros H; injection H as <-; auto.
  - destruct (Z.eqb_spec s0 1) as [H2|H2]; destruct (Z.eqb_spec s1 (-1)) as [H3|H3];
      cbn [andb]; intros H; injection H as <-; auto.
    unfold sell. destruct (Z.ltb_spec 0 (position e)) as [Hq|Hq]; [|auto].
    right. right. repeat split; auto.
  - destruct (Z.eqb_spec s0 1) as [H2|H2]; destruct (Z.eqb_spec s1 (-1)) as [H3|H3];
      cbn [andb]; intros H; injection H as <-; auto.
    unfold sell. destruct (Z.ltb_spec 0 (position e)) as [Hq|Hq]; [|auto].
    right. right. repeat split; auto.
Qed.

Lemma step_inv e i e1 :
  step e i = Ok e1 ->
  exists r p e2,
    getitem (data e) (Z.of_nat i) = Ok r /\
    getitem (data e) (Z.of_nat i - 1) = Ok p /\
    trade_rule e (Close r) (signal p) (signal r) = Ok e2 /\
    e1 = append_value e2 (value_at e2 (Close r)).
Proof.
  unfold step. intros H.
  apply bind_Ok in H as (r & Hr & H).
  apply bind_Ok in H as (p & Hp & H).
  apply bind_Ok in H as (e2 & He2 & H).
  injection H as <-. exists r, p, e2. auto.
Qed.



(** ** What a trade costs *)

Lemma trade_rule_value e price s0 s1 e1 :
  trade_rule e price s0 s1 = Ok e1 ->
  exists new,
    trades e1 = trades e ++ new /\ (length new <= 1)%nat /\
    value_at e1 price
      == value_at e price - commission e * sum_Q (map notional new).
Proof.
  intros H.
  destruct (trade_rule_cases _ _ _ _ H)
    as [-> | [(_ & _ & Hp & _ & _ & ->) | (_ & _ & _ & ->)]].
  - exists []. rewrite app_nil_r. split; [reflexivity|]. split; [simpl; lia|].
    simpl. ring.
  - eexists. split; [reflexivity|]. split; [simpl; lia|].
    unfold value_at, notional, trade_qty, trade_price. cbn [cash position].
    rewrite Hp. simpl. ring.
  - eexists. split; [reflexivity|]. split; [simpl; lia|].
    unfold value_at, notional, trade_qty, trade_price. cbn [cash position].
    simpl. ring.
Qed.


(** ** The cash and the trade log *)







(** ** Runs without a buy crossover *)

Lemma trade_rule_idle e price s0 s1 :
  position e = 0%Z -> ~ (s0 = (-1)%Z /\ s1 = 1%Z) ->
  trade_rule e price s0 s1 = Ok e.
Proof.
  intros Hp Hno. unfold trade_rule.
  destruct (Z.eqb_spec s0 (-1)) as [H0|H0]; destruct (Z.eqb_spec s1 1) as [H1|H1];
    cbn [andb]; try (exfalso; apply Hno; now split);
    destruct (_ && _)%bool; try reflexivity;
    unfold sell; now rewrite Hp.
Qed.

(** X1.  If the signal never goes from -1 to 1 between two consecutive
    rows, a run from a fresh engine on a non-empty frame returns, logs no
    trade, keeps the cash at the capital, and every recorded value and the
    final value equal the capital. *)
Theorem X1_no_buy_crossover_no_trade :
  forall d capital comm,
    d <> [] ->
    (forall i p r, nth_error d i = Some p -> nth_error d (S i) = Some r ->
                   ~ (signal p = (-1)%Z /\ signal r = 1%Z)) ->
    exists final_value e1,
      run_backtest (init d capital comm) = Ok (final_value, e1) /\
      trades e1 = [] /\ position e1 = 0%Z /\ cash e1 = capital /\
      final_value == capital /\
      Forall (fun v => v == capital) (portfolio_values e1) /\
      length (portfolio_values e1) = (length d - 1)%nat.
Proof.
  intros d capital comm Hd Hno.
  assert (Hloop : forall k, (k < length d)%nat ->
            exists ek, loop (init d capital comm) (seq 1 k) = Ok ek /\
              data ek = d /\ trades ek = [] /\ position ek = 0%Z /\
              cash ek = capital /\
              Forall (fun v => v == capital) (portfolio_values ek) /\
              length (portfolio_values ek) = k).
  { induction k as [|k IH]; intros Hk.
    - exists (init d capital comm). simpl. repeat split; auto.
    - destruct IH as (ek & Hek & Hdk & Ht & Hp & Hc & Hall & Hlen); [lia|].
      destruct (nth_error d (S k)) as [r|] eqn:Hr;
        [|apply nth_error_None in Hr; lia].
      destruct (nth_error d k) as [p|] eqn:Hpr;
        [|apply nth_error_None in Hpr; lia].
      rewrite seq_S, loop_snoc, Hek. cbn [bind].
      change (1 + k)%nat with (S k).
      rewrite (@step_rows ek k p r) by (rewrite Hdk; assumption).
      rewrite trade_rule_idle by (auto; eapply Hno; eauto). cbn [bind].
      eexists. split; [reflexivity|].
      cbn [append_value data trades position cash portfolio_values].
      repeat split; auto.
      + apply Forall_app. split; [exact Hall|].
        constructor; [|constructor]. rewrite Hp, Hc. simpl. ring.
      + rewrite length_app, Hlen. simpl. lia. }
  destruct (Hloop (length d - 1)%nat) as (e1 & He1 & Hd1 & Ht & Hp & Hc & Hall & Hlen).
  { destruct d; [congruence | simpl; lia]. }
  destruct (exists_last Hd) as (l' & b & Hl).
  assert (Hg : getitem d (-1) = Ok b) by (rewrite Hl; apply getitem_last).
  unfold run_backtest. rewrite py_range_step1. cbn [init data].
  rewrite He1. cbn [bind]. rewrite Hd1, Hg.
  cbn [bind]. exists (cash e1 + inject_Z (position e1) * Close b), e1.
  split; [reflexivity|]. repeat split; auto.
  rewrite Hp, Hc. simpl. ring.
Qed.

(** ** The shape of the trade log *)

Lemma trade_rule_quantities e price s0 s1 e1 :
  Forall (fun t => (0 < trade_qty t)%Z) (trades e) ->
  trade_rule e price s0 s1 = Ok e1 ->
  Forall (fun t => (0 < trade_qty t)%Z) (trades e1).
Proof.
  intros Hinv H.
  destruct (trade_rule_cases _ _ _ _ H)
    as [-> | [(_ & _ & _ & _ & Hq & ->) | (_ & _ & Hq & ->)]]; [exact Hinv | |];
    cbn [trades]; apply Forall_app; split; auto; constructor; auto.
Qed.

Lemma loop_quantities e l e1 :
  Forall (fun t => (0 < trade_qty t)%Z) (trades e) ->
  loop e l = Ok e1 ->
  Forall (fun t => (0 < trade_qty t)%Z) (trades e1).
Proof.
  revert e. induction l as [|i l IH]; intros e Hinv; cbn [loop].
  - intros H. now injection H as <-.
  - intros H. apply bind_Ok in H as (e2 & He2 & H).
    eapply IH; [|exact H].
    apply step_inv in He2 as (r & p & e3 & _ & _ & He3 & ->).
    exact (@trade_rule_quantities _ _ _ _ _ Hinv He3).
Qed.

Lemma closed_pairs_In (ts : list trade) (p : trade * trade) :
  In p (closed_pairs ts) -> In (fst p) ts /\ In (snd p) ts.
Proof.
  induction ts as [|a|a b ts IH] using list_pair_ind; cbn [closed_pairs].
  - intros [].
  - intros [].
  - intros [<- | H]; [simpl; auto|].
    apply IH in H as (H1 & H2). split; right; right; assumption.
Qed.

(** X2.  In the log of a run from a fresh engine the trades alternate: the
    pairs (t0, t1), (t2, t3), ... are each a BUY followed by a SELL of the
    same quantity, every quantity is positive, and the position at the end
    is 0 when every BUY is matched and otherwise the quantity of the
    trailing BUY; a BUY is never logged while shares are held. *)
Theorem X2_trades_alternate :
  forall d capital comm final_value e1,
    run_backtest (init d capital comm) = Ok (final_value, e1) ->
    Forall buy_sell_pair (closed_pairs (trades e1)) /\
    Forall (fun t => (0 < trade_qty t)%Z) (trades e1) /\
    ((position e1 = 0%Z /\ flat_log (trades e1)) \/
     ((0 < position e1)%Z /\
      exists ts p, flat_log ts /\ trades e1 = ts ++ [(BUY, p, position e1)])).
Proof.
  intros d capital comm fv e1 Hrun.
  destruct (run_backtest_trades_paired _ _ _ Hrun) as (Hlog & Hpairs).
  split; [exact Hpairs|]. split; [|exact Hlog].
  eapply loop_quantities; [|eapply run_backtest_loop, Hrun]. constructor.
Qed.

(** X12.  On the log of a run a closed pair counts as a win exactly when
    its SELL price is above its BUY price: the commission paid on the two
    trades plays no part in the win ratio. *)
Theorem X12_win_is_price_rise :
  forall d capital comm final_value e1 p,
    run_backtest (init d capital comm) = Ok (final_value, e1) ->
    In p (closed_pairs (trades e1)) ->
    (winning p = true <-> trade_price (fst p) < trade_price (snd p)).
Proof.
  intros d capital comm fv e1 p Hrun Hin.
  assert (Hq : Forall (fun t => (0 < trade_qty t)%Z) (trades e1)).
  { eapply loop_quantities; [|eapply run_backtest_loop, Hrun]. constructor. }
  apply closed_pairs_In in Hin as (Hb & _).
  rewrite Forall_forall in Hq. specialize (Hq _ Hb).
  assert (Hq1 : 1 <= inject_Z (trade_qty (fst p))).
  { change 1 with (inject_Z 1). rewrite <- Zle_Qle. lia. }
  unfold winning. rewrite Qpositive_spec. unfold pair_profit.
  split; intros H; nra.
Qed.

(** ** Errors of [run_backtest] *)




(** ** A run only appends *)

Lemma trade_rule_trades_prefix e price s0 s1 e1 :
  trade_rule e price s0 s1 = Ok e1 -> exists new, trades e1 = trades e ++ new.
Proof.
  intros H. destruct (trade_rule_value _ _ _ _ H) as (new & Hn & _). eauto.
Qed.

Lemma loop_trades_prefix e l e1 :
  loop e l = Ok e1 -> exists new, trades e1 = trades e ++ new.
Proof.
  revert e. induction l as [|i l IH]; intros e; cbn [loop].
  - intros H. injection H as <-. exists []. now rewrite app_nil_r.
  - intros H. apply bind_Ok in H as (e2 & He2 & H).
    apply IH in H as (n2 & ->).
    apply step_inv in He2 as (r & p & e3 & _ & _ & He3 & ->).
    apply trade_rule_trades_prefix in He3 as (n1 & Hn1).
    cbn [append_value trades]. rewrite Hn1.
    exists (n1 ++ n2). now rewrite app_assoc.
Qed.

(** X7.  [run_backtest] does not reset the engine: on any engine it keeps
    the frame, the initial capital and the commission, and it appends to the
    value series and to the trade log that are already there, exactly
    len(data) - 1 values per call. *)
Theorem X7_run_backtest_appends :
  forall e final_value e1,
    run_backtest e = Ok (final_value, e1) ->
    data e1 = data e /\ initial_capital e1 = initial_capital e /\
    commission e1 = commission e /\
    (exists values,
        portfolio_values e1 = portfolio_values e ++ values /\
        length values = (length (data e) - 1)%nat) /\
    (exists new, trades e1 = trades e ++ new).
Proof.
  intros e fv e1 Hrun. apply run_backtest_loop in Hrun.
  destruct (loop_frame _ _ Hrun) as (Hd & Hc & Hlen).
  split; [exact Hd|]. split; [eapply loop_initial_capital, Hrun|].
  split; [exact Hc|]. split; [|eapply loop_trades_prefix, Hrun].
  destruct (loop_portfolio_prefix _ _ Hrun) as (values & Hv).
  exists values. split; [exact Hv|].
  rewrite Hv, length_app, length_seq in Hlen. lia.
Qed.

(** ** Zero commission *)





(** ** Returns of a series without a zero *)




(** * The pipeline *)

(** ** Moving averages and signals *)

Lemma combine_map_seq {A B : Type} (d : A) (f : nat -> B) (l : list A) :
  forall k,
    combine l (map f (seq k (length l)))
    = map (fun i => (nth (i - k) l d, f i)) (seq k (length l)).
Proof.
  induction l as [|x l IH]; intros k; [reflexivity|].
  cbn [length seq map combine]. rewrite Nat.sub_diag. cbn [nth].
  f_equal. rewrite IH. apply map_ext_in. intros i Hi.
  apply in_seq in Hi. replace (i - k)%nat with (S (i - S k)) by lia.
  reflexivity.
Qed.

Lemma combine_map_same {A B C : Type} (f : A -> B) (g : A -> C) (l : list A) :
  combine (map f l) (map g l) = map (fun a => (f a, g a)) l.
Proof. induction l as [|a l IH]; simpl; [reflexivity | now rewrite IH]. Qed.

Lemma flat_map_nil_in {A B : Type} (f : A -> list B) (l : list A) :
  (forall a, In a l -> f a = []) -> flat_map f l = [].
Proof.
  induction l as [|a l IH]; intros H; simpl; [reflexivity|].
  rewrite H by (now left). apply IH. intros b Hb. apply H. now right.
Qed.

Lemma flat_map_singleton_in {A B : Type} (f : A -> list B) (g : A -> B)
      (l : list A) :
  (forall a, In a l -> f a = [g a]) -> flat_map f l = map g l.
Proof.
  induction l as [|a l IH]; intros H; simpl; [reflexivity|].
  rewrite H by (now left). simpl. f_equal. apply IH.
  intros b Hb. apply H. now right.
Qed.

Lemma map_nth_seq_skipn {A : Type} (d : A) (l : list A) :
  forall k, map (fun i => nth i l d) (seq k (length l - k)) = skipn k l.
Proof.
  induction l as [|x l IH]; intros k.
  - replace (length (@nil A) - k)%nat with 0%nat by (simpl; lia).
    now destruct k.
  - destruct k as [|k].
    + cbn [length skipn]. rewrite Nat.sub_0_r. cbn [seq map nth]. f_equal.
      rewrite <- seq_shift, map_map. cbn [nth].
      rewrite <- (IH 0%nat) at 2. now rewrite Nat.sub_0_r.
    + cbn [length skipn]. rewrite Nat.sub_succ.
      rewrite <- seq_shift, map_map. cbn [nth]. apply IH.
Qed.

Lemma Qgt_bool_spec (a b : Q) : Qgt_bool a b = true <-> b < a.
Proof.
  unfold Qgt_bool. rewrite Qgt_alt. destruct (a ?= b); split; congruence.
Qed.

Lemma load_market_data_Ok (downloaded : list raw_row) (closes : list Q) :
  load_market_data downloaded = Ok closes ->
  downloaded <> [] /\ closes = dropna downloaded.
Proof.
  destruct downloaded as [|r0 rest]; [discriminate|].
  intros H. injection H as <-. split; [discriminate | reflexivity].
Qed.

Section PipelineFacts.
Variable mean : nat -> list Q -> nat -> Q.
Variable power : np.float64 -> np.float64 -> np.float64.
Variable sqrt : np.float64 -> np.float64.

Lemma sma_frame_rows (closes : list Q) :
  sma_frame mean closes =
    map (fun i => (nth i closes 0,
                   (window_mean mean 50 closes i, window_mean mean 200 closes i)))
        (seq 0 (length closes)).
Proof.
  unfold sma_frame, rolling_mean. cbv zeta.
  rewrite combine_map_same, (combine_map_seq 0).
  apply map_ext. intros i. now rewrite Nat.sub_0_r.
Qed.

Lemma window_mean_early (w : nat) (values : list Q) (i : nat) :
  (S i < w)%nat -> window_mean mean w values i = None.
Proof.
  intros H. unfold window_mean.
  destruct (Nat.ltb_spec (S i) w); [reflexivity | lia].
Qed.

Lemma window_mean_full (w : nat) (values : list Q) (i : nat) :
  (w <= S i)%nat -> window_mean mean w values i = Some (mean w values i).
Proof.
  intros H. unfold window_mean.
  destruct (Nat.ltb_spec (S i) w); [lia | reflexivity].
Qed.

(** The rows that survive [dropna] are those from position 199 on. *)
Lemma sma_signals_rows (closes : list Q) :
  sma_signals mean closes =
    map (fun i => Row (nth i closes 0) (crossover_signal mean closes i))
        (seq 199 (length closes - 199)).
Proof.
  unfold sma_signals, dropna_sma. rewrite sma_frame_rows, flat_map_concat_map.
  rewrite map_map, <- flat_map_concat_map.
  destruct (Nat.le_gt_cases (length closes) 199) as [Hn|Hn].
  - replace (length closes - 199)%nat with 0%nat by lia. cbn [seq map].
    rewrite flat_map_nil_in; [reflexivity|].
    intros i Hi. apply in_seq in Hi.
    rewrite (@window_mean_early 200) by lia.
    now destruct (window_mean mean 50 closes i).
  - replace (length closes) with (199 + (length closes - 199))%nat at 1 by lia.
    rewrite seq_app, flat_map_app.
    rewrite flat_map_nil_in.
    + cbn [app]. cbn [Nat.add].
      rewrite (@flat_map_singleton_in _ _ _
                 (fun i => (nth i closes 0,
                            (mean 50%nat closes i, mean 200%nat closes i)))).
      * rewrite map_map. reflexivity.
      * intros i Hi. apply in_seq in Hi.
        now rewrite (@window_mean_full 50), (@window_mean_full 200) by lia.
    + intros i Hi. apply in_seq in Hi.
      rewrite (@window_mean_early 200) by lia.
      now destruct (window_mean mean 50 closes i).
Qed.

(** X13.  The frame that [main] hands to the engine, whatever values the
    rolling means take where their windows are full and for closes below
    2^1000 in magnitude (so that no running sum leaves the float range): of
    n downloaded clean rows the first 199 go (the 200-day average is NaN
    there), the closes of the n - 199 rows that stay are the downloaded ones
    in order, every signal is 1 or -1 (never 0), and it is 1 exactly when
    the 50-day value is above the 200-day value of that row. *)
Theorem X13_sma_signals :
  forall closes,
    Forall (fun c => Qabs c < float_safe) closes ->
    length (sma_signals mean closes) = (length closes - 199)%nat /\
    map Close (sma_signals mean closes) = skipn 199 closes /\
    Forall (fun r => signal r = 1%Z \/ signal r = (-1)%Z)
           (sma_signals mean closes) /\
    (forall j r,
        nth_error (sma_signals mean closes) j = Some r ->
        (signal r = 1%Z <->
         mean 200%nat closes (199 + j)%nat
         < mean 50%nat closes (199 + j)%nat)).
Proof.
  intros closes _. rewrite sma_signals_rows.
  split; [now rewrite length_map, length_seq|].
  split; [rewrite map_map; cbn [Close]; apply map_nth_seq_skipn|].
  split.
  - apply Forall_forall. intros r Hr.
    apply in_map_iff in Hr as (i & <- & _). cbn [signal].
    unfold crossover_signal. destruct (Qgt_bool _ _); auto.
  - intros j r Hj.
    rewrite nth_error_map in Hj.
    destruct (nth_error (seq 199 (length closes - 199)) j) as [i|] eqn:Hi;
      [|discriminate].
    cbn [option_map] in Hj. injection Hj as <-.
    assert (Hlt : (j < length (seq 199 (length closes - 199)))%nat)
      by (apply nth_error_Some; congruence).
    rewrite length_seq in Hlt.
    rewrite (nth_error_nth' _ 0%nat) in Hi by (now rewrite length_seq).
    rewrite seq_nth in Hi by exact Hlt. injection Hi as <-.
    cbn [signal]. unfold crossover_signal. rewrite <- Qgt_bool_spec.
    destruct (Qgt_bool _ _); split; congruence || lia.
Qed.

(** ** From the run to the metrics *)

Lemma calculate_performance_after_run d capital comm final_value e1 :
  run_backtest (init d capital comm) = Ok (final_value, e1) ->
  ((length d <= 2)%nat -> calculate_performance power sqrt e1 = Ok None) /\
  ((3 <= length d)%nat ->
   exists m,
     calculate_performance power sqrt e1 = Ok (Some m) /\
     Total_Return m = np.divide (np.Fin (final_value - capital)) (np.Fin capital)).
Proof.
  intros Hrun.
  assert (Hloop := run_backtest_loop _ Hrun). cbn [init data] in Hloop.
  destruct (loop_frame _ _ Hloop) as (Hd & _ & Hpv).
  rewrite length_seq in Hpv. cbn [init data portfolio_values length] in Hd, Hpv.
  assert (Hcap := loop_initial_capital _ _ Hloop). cbn [init initial_capital] in Hcap.
  split; intros Hlen.
  - unfold calculate_performance.
    destruct (Nat.ltb_spec (length (portfolio_values e1)) 2); [reflexivity | lia].
  - assert (Hfv := @run_backtest_final_value (init d capital comm) final_value e1).
    cbn [init data] in Hfv. specialize (Hfv ltac:(lia) Hrun).
    destruct (@calculate_performance_returns power sqrt e1)
      as (m & v_last & Hm & Hlast & Htot & _).
    { lia. }
    { rewrite Hd. intros E. rewrite E in Hlen. simpl in Hlen. lia. }
    exists m. split; [exact Hm|].
    assert (v_last = final_value) by congruence. subst v_last.
    now rewrite Hcap in Htot.
Qed.

(** X8.  After a run from a fresh engine [calculate_performance] never
    raises: it returns None when the frame has at most 2 rows and the
    metrics when it has 3 or more, the total return being
    (final value - capital) / capital. *)
Theorem X8_metrics_after_run :
  forall d capital comm final_value e1,
    run_backtest (init d capital comm) = Ok (final_value, e1) ->
    ((length d <= 2)%nat -> calculate_performance power sqrt e1 = Ok None) /\
    ((3 <= length d)%nat ->
     exists m,
       calculate_performance power sqrt e1 = Ok (Some m) /\
       Total_Return m
         = np.divide (np.Fin (final_value - capital)) (np.Fin capital)).
Proof.
  intros d capital comm final_value e1 Hrun.
  exact (@calculate_performance_after_run _ _ _ _ _ Hrun).
Qed.

(** X9.  When a run on at least 3 rows with positive prices, a positive
    capital and a commission rate in [0, 1/2] returns, with the capital and
    the recorded values below 2^1000, the metrics are computed and the
    maximum drawdown is a finite number <= 0 that is 0 exactly when the
    recorded values never decrease. *)
Theorem X9_valid_run_drawdown :
  forall d capital comm final_value e1,
    0 < capital -> 0 <= comm -> comm <= 1 # 2 ->
    Forall (fun r => 0 < Close r) d ->
    (3 <= length d)%nat ->
    run_backtest (init d capital comm) = Ok (final_value, e1) ->
    capital < float_safe ->
    Forall (fun v => v < float_safe) (portfolio_values e1) ->
    exists m dd,
      calculate_performance power sqrt e1 = Ok (Some m) /\
      Max_Drawdown m = np.Fin dd /\ dd <= 0 /\
      (dd == 0 <-> nondecreasing (portfolio_values e1)).
Proof.
  intros d capital comm fv e1 Hcap Hc0 Hc1 Hall Hlen Hrun _ _.
  destruct (run_backtest_first_value_positive Hcap Hc0 Hc1 Hall ltac:(lia) Hrun)
    as (v0 & rest & Hpv & Hv0).
  assert (Hloop := run_backtest_loop _ Hrun). cbn [init data] in Hloop.
  destruct (loop_frame _ _ Hloop) as (Hd & _ & Hn).
  rewrite length_seq in Hn. cbn [init data portfolio_values length] in Hd, Hn.
  destruct (@calculate_performance_returns power sqrt e1)
    as (m & v_last & Hm & _ & _ & _ & _ & Hmd & _).
  { lia. }
  { rewrite Hd. intros E. rewrite E in Hlen. simpl in Hlen. lia. }
  rewrite Hpv in Hmd.
  destruct (max_drawdown_spec rest Hv0) as (dd & Hdd & Hle & Hiff).
  exists m, dd. split; [exact Hm|].
  rewrite Hpv. split; [congruence | auto].
Qed.

Lemma main_short_history_raises downloaded :
  (length (dropna downloaded) < 200)%nat ->
  main mean power sqrt downloaded
  = Raise (match downloaded with [] => ValueError | _ => IndexError end).
Proof.
  intros Hlen. unfold main.
  destruct downloaded as [|r0 rest]; [reflexivity|].
  cbn [load_market_data bind].
  assert (E : sma_signals mean (dropna (r0 :: rest)) = []).
  { apply length_zero_iff_nil.
    rewrite sma_signals_rows, length_map, length_seq. lia. }
  rewrite E. reflexivity.
Qed.

(** X14.  [main] on fewer than 200 clean rows stops with an exception:
    [ValueError] from [load_market_data] when the download is empty, and
    otherwise [IndexError] from [run_backtest], because no row is left
    once the rows without a 200-day average are dropped. *)
Theorem X14_main_short_history :
  forall downloaded,
    (length (dropna downloaded) < 200)%nat ->
    main mean power sqrt downloaded
    = Raise (match downloaded with [] => ValueError | _ => IndexError end).
Proof.
  intros downloaded Hlen. now apply main_short_history_raises.
Qed.

(** X15.  When [main] returns on a download whose clean closes are below
    2^1000 in magnitude, the download held at least 200 clean rows, the
    final value is the one of the run on the rows from the 200th on with
    capital 1,000,000 and commission 0.1 %, and the metrics are missing
    exactly when there are at most 201 clean rows. *)
Theorem X15_main_returns :
  forall downloaded final_value performance,
    main mean power sqrt downloaded = Ok (final_value, performance) ->
    Forall (fun c => Qabs c < float_safe) (dropna downloaded) ->
    (200 <= length (dropna downloaded))%nat /\
    (exists e1,
        run_backtest
          (init (sma_signals mean (dropna downloaded)) 1000000 (1 # 1000))
          = Ok (final_value, e1) /\
        calculate_performance power sqrt e1 = Ok performance) /\
    (performance = None <-> (length (dropna downloaded) <= 201)%nat).
Proof.
  intros downloaded fv perf Hmain _.
  destruct (Nat.le_gt_cases 200 (length (dropna downloaded))) as [Hlen|Hlen].
  2:{ rewrite (main_short_history_raises _ Hlen) in Hmain. discriminate. }
  split; [exact Hlen|].
  unfold main in Hmain.
  apply bind_Ok in Hmain as (closes & Hload & Hmain).
  apply load_market_data_Ok in Hload as (_ & ->).
  remember (dropna downloaded) as cleaned eqn:Eclean. clear Eclean.
  apply bind_Ok in Hmain as ((fv' & e1) & Hrun & Hmain).
  apply bind_Ok in Hmain as (perf' & Hperf & Hmain).
  cbn [fst snd] in Hrun, Hperf, Hmain. injection Hmain as <- <-.
  split; [exists e1; split; [exact Hrun | exact Hperf]|].
  assert (Hn : length (sma_signals mean cleaned) = (length cleaned - 199)%nat)
    by (rewrite sma_signals_rows, length_map, length_seq; reflexivity).
  destruct (@calculate_performance_after_run _ _ _ _ _ Hrun) as (Hnone & Hsome).
  destruct (Nat.le_gt_cases (length cleaned) 201) as [Hle|Hgt].
  - specialize (Hnone ltac:(lia)).
    split; intros _; [exact Hle | congruence].
  - destruct Hsome as (m & Hm & _); [lia|].
    split; intros H; [subst perf'; congruence | lia].
Qed.

End PipelineFacts.

(** ** The further properties at concrete inputs *)

Lemma X1_witness :
  exists final_value e1,
    run_backtest (init falling_data 1000 (1 # 1000)) = Ok (final_value, e1) /\
    trades e1 = [] /\ position e1 = 0%Z /\ cash e1 = 1000 /\
    final_value == 1000 /\
    Forall (fun v => v == 1000) (portfolio_values e1) /\
    length (portfolio_values e1) = (length falling_data - 1)%nat.
Proof.
  apply (@X1_no_buy_crossover_no_trade falling_data 1000 (1 # 1000)).
  - discriminate.
  - intros i p r Hp Hr (H0 & H1).
    destruct i as [|[|[|i]]]; simpl in Hp, Hr;
      try discriminate; injection Hp as <-; injection Hr as <-;
      simpl in H0, H1; discriminate.
Defined.

Lemma X2_witness :
  Forall buy_sell_pair (closed_pairs (trades example_engine)) /\
  Forall (fun t => (0 < trade_qty t)%Z) (trades example_engine) /\
  ((position example_engine = 0%Z /\ flat_log (trades example_engine)) \/
   ((0 < position example_engine)%Z /\
    exists ts p,
      flat_log ts /\
      trades example_engine = ts ++ [(BUY, p, position example_engine)])).
Proof.
  apply (@X2_trades_alternate example_data 1000 0 1249 example_engine).
  reflexivity.
Defined.




Example zero_price_raises :
  run_backtest (init zero_price_data 1000 0) = Raise ZeroDivisionError.
Proof. reflexivity. Qed.


Lemma X7_witness :
  data example_engine = data (init example_data 1000 0) /\
  initial_capital example_engine = initial_capital (init example_data 1000 0) /\
  commission example_engine = commission (init example_data 1000 0) /\
  (exists values,
      portfolio_values example_engine
        = portfolio_values (init example_data 1000 0) ++ values /\
      length values = (length (data (init example_data 1000 0)) - 1)%nat) /\
  (exists new, trades example_engine = trades (init example_data 1000 0) ++ new).
Proof.
  apply (@X7_run_backtest_appends (init example_data 1000 0) 1249 example_engine).
  reflexivity.
Defined.

Lemma X8_witness :
  ((length example_data <= 2)%nat ->
   calculate_performance power_on_integers sqrt_on_squares example_engine
     = Ok None) /\
  ((3 <= length example_data)%nat ->
   exists m,
     calculate_performance power_on_integers sqrt_on_squares example_engine
       = Ok (Some m) /\
     Total_Return m = np.divide (np.Fin (1249 - 1000)) (np.Fin 1000)).
Proof.
  apply (@X8_metrics_after_run power_on_integers sqrt_on_squares
           example_data 1000 0 1249 example_engine).
  reflexivity.
Defined.

Lemma X9_witness :
  exists m dd,
    calculate_performance power_on_integers sqrt_on_squares example_engine
      = Ok (Some m) /\
    Max_Drawdown m = np.Fin dd /\ dd <= 0 /\
    (dd == 0 <-> nondecreasing (portfolio_values example_engine)).
Proof.
  apply (@X9_valid_run_drawdown power_on_integers sqrt_on_squares
           example_data 1000 0 1249 example_engine).
  - reflexivity.
  - discriminate.
  - discriminate.
  - repeat constructor.
  - simpl. lia.
  - reflexivity.
  - reflexivity.
  - repeat constructor.
Defined.



Lemma X12_witness :
  winning ((BUY, 12, 83%Z), (SELL, 15, 83%Z)) = true <->
  trade_price (fst ((BUY, 12, 83%Z), (SELL, 15, 83%Z)))
    < trade_price (snd ((BUY, 12, 83%Z), (SELL, 15, 83%Z))).
Proof.
  apply (@X12_win_is_price_rise example_data 1000 0 1249 example_engine).
  - reflexivity.
  - simpl. auto.
Defined.

Lemma X13_witness :
  length (sma_signals sma (dropna flat_download))
    = (length (dropna flat_download) - 199)%nat /\
  map Close (sma_signals sma (dropna flat_download))
    = skipn 199 (dropna flat_download) /\
  Forall (fun r => signal r = 1%Z \/ signal r = (-1)%Z)
         (sma_signals sma (dropna flat_download)) /\
  (forall j r,
      nth_error (sma_signals sma (dropna flat_download)) j = Some r ->
      (signal r = 1%Z <->
       sma 200%nat (dropna flat_download) (199 + j)%nat
       < sma 50%nat (dropna flat_download) (199 + j)%nat)).
Proof.
  apply (@X13_sma_signals sma (dropna flat_download)).
  assert (E : dropna flat_download = repeat 10 202) by (vm_compute; reflexivity).
  rewrite E. apply Forall_forall. intros x Hx.
  apply repeat_spec in Hx. subst x. reflexivity.
Defined.

Lemma X14_witness :
  main sma power_on_integers sqrt_on_squares short_download = Raise IndexError.
Proof.
  apply (@X14_main_short_history sma power_on_integers sqrt_on_squares
           short_download).
  simpl. lia.
Defined.

Lemma X15_witness :
  (200 <= length (dropna flat_download))%nat /\
  (exists e1,
      run_backtest
        (init (sma_signals sma (dropna flat_download)) 1000000 (1 # 1000))
        = Ok (fst flat_result, e1) /\
      calculate_performance power_on_integers sqrt_on_squares e1
        = Ok (snd flat_result)) /\
  (snd flat_result = None <-> (length (dropna flat_download) <= 201)%nat).
Proof.
  apply (@X15_main_returns sma power_on_integers sqrt_on_squares flat_download
           (fst flat_result) (snd flat_result)).
  - vm_compute. reflexivity.
  - assert (E : dropna flat_download = repeat 10 202) by (vm_compute; reflexivity).
    rewrite E. apply Forall_forall. intros x Hx.
    apply repeat_spec in Hx. subst x. reflexivity.
Defined.
